(** * Poultry flock validation engine (main.py): shallow embedding

    The service reads a spreadsheet into a pandas frame, adds the
    catalogue columns the upload lacks, splits the rows into operational
    and care records, flags duplicates, validates each row and returns two
    lists of annotated records.

    Conventions of the embedding.
    - A cell is a [value]: Python [None], [pd.NA], the float [nan], the
      floats [inf]/[-inf], a Python int, a finite float, or text.  A
      finite float is kept by its integral value ([12.0] is [VFloat 12]);
      floats with a fractional part are outside the embedding.  Text is
      ASCII, and a date cell is taken as its text.
    - A row (a pandas Series indexed by column name) is a
      [gmap string value]; [row.get(col)] is [get].
    - A frame is the list of its rows, in order.  All rows of one frame
      have the same keys, so a column absent from the frame is a key
      absent from every row.
    - An exception is a [Raise] in the [result] monad. *)

From Stdlib Require Import ZArith Ascii String.
From stdpp Require Import base option list strings gmap pretty.

(** ** Python string methods used by the service *)

Module Str.

(** [str.isspace] on the ASCII range: TAB..CR, FS..US and the blank. *)
Definition isspace (c : ascii) : bool :=
  let n := nat_of_ascii c in
  ((9 <=? n)%nat && (n <=? 13)%nat) || ((28 <=? n)%nat && (n <=? 32)%nat).

Fixpoint lstrip (s : string) : string :=
  match s with
  | EmptyString => EmptyString
  | String c t => if isspace c then lstrip t else s
  end.

Definition rstrip (s : string) : string := String.rev (lstrip (String.rev s)).

(** [s.strip()] *)
Definition strip (s : string) : string := lstrip (rstrip s).

Definition upper_char (c : ascii) : ascii :=
  let n := nat_of_ascii c in
  if ((97 <=? n)%nat && (n <=? 122)%nat) then ascii_of_nat (n - 32) else c.

(** [s.upper()] *)
Fixpoint upper (s : string) : string :=
  match s with
  | EmptyString => EmptyString
  | String c t => String (upper_char c) (upper t)
  end.

(** [sep.join(parts)] *)
Fixpoint join (sep : string) (parts : list string) : string :=
  match parts with
  | [] => ""
  | [p] => p
  | p :: rest => p +:+ sep +:+ join sep rest
  end.

End Str.

(** ** Cells *)

Inductive value : Type :=
| VNone                     (* None *)
| VNA                       (* pd.NA *)
| VNaN                      (* float('nan') *)
| VInf (negative : bool)    (* float('inf'), float('-inf') *)
| VNum (z : Z)              (* an int *)
| VFloat (z : Z)            (* a finite float, of integral value: 12.0 *)
| VStr (s : string).        (* text *)

Global Instance value_eq_dec : EqDecision value.
Proof. solve_decision. Defined.

(** [pd.isna(val)] and [pd.notna(val)] on a scalar. *)
Definition isna (v : value) : bool :=
  match v with
  | VNone | VNA | VNaN => true
  | _ => false
  end.

Definition notna (v : value) : bool := negb (isna v).

(** [isinstance(val, (int, float))] *)
Definition is_int_or_float (v : value) : bool :=
  match v with
  | VNaN | VInf _ | VNum _ | VFloat _ => true
  | _ => false
  end.

(** [str(val)] *)
Definition str (v : value) : string :=
  match v with
  | VNone => "None"
  | VNA => "<NA>"
  | VNaN => "nan"
  | VInf false => "inf"
  | VInf true => "-inf"
  | VNum z => pretty z
  | VFloat z => pretty z +:+ ".0"
  | VStr s => s
  end.

(** [float(val) != 0] for an int or a float. *)
Definition float_ne_zero (v : value) : bool :=
  match v with
  | VNum z | VFloat z => negb (z =? 0)%Z
  | _ => true
  end.

(** [val < 0] for an int or a float. *)
Definition lt_zero (v : value) : bool :=
  match v with
  | VNum z | VFloat z => (z <? 0)%Z
  | VInf negative => negative
  | _ => false
  end.

(** ** Exceptions *)

Inductive exn : Type := TypeError | KeyError.

Inductive result (A : Type) : Type :=
| Ok (a : A)
| Raise (e : exn).
Arguments Ok {A} a.
Arguments Raise {A} e.

Definition bind {A B} (m : result A) (k : A → result B) : result B :=
  match m with
  | Ok a => k a
  | Raise e => Raise e
  end.

Notation "'let*' x := m 'in' k" := (bind m (λ x, k))
  (at level 10, x pattern, m at level 100, k at level 200).

(** Did the computation return? *)
Definition is_ok {A} (m : result A) : bool :=
  match m with
  | Ok _ => true
  | Raise _ => false
  end.

(** The value returned, if any. *)
Definition returned {A} (m : result A) : option A :=
  match m with
  | Ok a => Some a
  | Raise _ => None
  end.

(** [[f(x) for x in xs]] where [f] may raise: the first exception wins. *)
Fixpoint mapM {A B} (f : A → result B) (xs : list A) : result (list B) :=
  match xs with
  | [] => Ok []
  | x :: xs' => let* y := f x in let* ys := mapM f xs' in Ok (y :: ys)
  end.

(** [bool(val)]: [pd.NA] has no truth value. *)
Definition truth (v : value) : result bool :=
  match v with
  | VNone => Ok false
  | VNA => Raise TypeError
  | VNaN => Ok true
  | VInf _ => Ok true
  | VNum z | VFloat z => Ok (negb (z =? 0)%Z)
  | VStr s => Ok (negb (bool_decide (s = "")))
  end.

(** [val or ''] *)
Definition or_empty (v : value) : result value :=
  let* b := truth v in Ok (if b : bool then v else VStr "").

(** ** Rows and the column catalogue *)

Abbreviation row := (gmap string value).

(** [row.get(col)] *)
Definition get (r : row) (col : string) : value := default VNone (r !! col).

Definition REQUIRED_OPERATIONAL_COLS : list string :=
  [ "Flock"; "Date"; "Animal Mortality"; "Animals Culled"; "Table Eggs Prod";
    "Animal Feed Formula Name"; "Supplied Feed"; "Feed Received (Kg)";
    "Animal Feed Consumed"; "Water Consumption";
    "Animal Weight"; "Animal Uniformity"; "Animal CV Uniformity";
    "Female Feed Formula ID"; "Temperature Low"; "Ammonia Level";
    "Animal Feed Inventory"; "Female Feed Type ID";
    "Light_Duration (HU)"; "Light intensity %" ].

Definition OPTIONAL_OPERATIONAL_COLS : list string :=
  [ "Animal Weight"; "Animal Uniformity"; "Animal CV Uniformity" ].

Definition REQUIRED_CARE_COLS : list string :=
  [ "Vaccination"; "Creation User ID"; "Medication"; "Vacc Method";
    "Vacc Type"; "VaccinevDoze"; "Medication Batch"; "Concentration %";
    "Record Source Type"; "Medication Dose"; "Medication Exp Date";
    "Doctor Name"; "Doses Unit"; "Produced PS_Nest_HE"; "Vaccine Name" ].

(** [col in OPTIONAL_OPERATIONAL_COLS + ['Flock', 'Date']] *)
Definition skipped (col : string) : bool :=
  bool_decide (col ∈ OPTIONAL_OPERATIONAL_COLS ++ ["Flock"; "Date"]).

(** ** is_operational_row *)

(** The body of the loop for one value: does it make the row operational? *)
Definition signals (val : value) : bool :=
  if notna val then
    if is_int_or_float val then float_ne_zero val
    else negb (bool_decide (Str.strip (str val) ∈ [""; "0"; "nan"; "NaN"]))
  else false.

Fixpoint is_operational_cols (cols : list string) (r : row) : bool :=
  match cols with
  | [] => false
  | col :: cols' =>
    if skipped col then is_operational_cols cols' r
    else if signals (get r col) then true
    else is_operational_cols cols' r
  end.

Definition is_operational_row (r : row) : bool :=
  is_operational_cols REQUIRED_OPERATIONAL_COLS r.

(** ** check_operational_row *)

(** [pd.isna(val) or str(val).strip() == ''] *)
Definition blank (val : value) : bool :=
  isna val || bool_decide (Str.strip (str val) = "").

Fixpoint check_operational_cols (cols : list string) (r : row)
    (errors : list string) : list string :=
  match cols with
  | [] => errors
  | col :: cols' =>
    if skipped col then check_operational_cols cols' r errors
    else
      let val := get r col in
      if blank val then
        check_operational_cols cols' r (errors ++ ["Missing " +:+ col])
      else if is_int_or_float val && lt_zero val then
        check_operational_cols cols' r (errors ++ ["Negative value in " +:+ col])
      else check_operational_cols cols' r errors
  end.

Fixpoint check_missing_cols (cols : list string) (r : row)
    (errors : list string) : list string :=
  match cols with
  | [] => errors
  | col :: cols' =>
    if blank (get r col) then
      check_missing_cols cols' r (errors ++ ["Missing " +:+ col])
    else check_missing_cols cols' r errors
  end.

Definition operational_errors (r : row) : list string :=
  let errors := check_operational_cols REQUIRED_OPERATIONAL_COLS r [] in
  check_missing_cols ["Flock"; "Date"] r errors.

(** ['; '.join(errors) if errors else None] *)
Definition join_errors (errors : list string) : option string :=
  match errors with
  | [] => None
  | _ => Some (Str.join "; " errors)
  end.

Definition check_operational_row (r : row) : option string :=
  join_errors (operational_errors r).

(** ** check_care_row *)

Definition NOTE_ONLY_VACC : string :=
  "Note: Only vaccination recorded, no medication data entered.".
Definition NOTE_ONLY_MED : string :=
  "Note: Only medication recorded, no vaccination data entered.".

Fixpoint check_care_cols (cols : list string) (r : row)
    (errors : list string) : list string :=
  match cols with
  | [] => errors
  | col :: cols' =>
    if bool_decide (col ∈ ["Vaccination"; "Medication"]) then
      check_care_cols cols' r errors
    else if blank (get r col) then
      check_care_cols cols' r (errors ++ ["Missing " +:+ col])
    else check_care_cols cols' r errors
  end.

(** The error list and the note, before the list is joined. *)
Definition care_errors (r : row) : result (list string * string) :=
  let* v := or_empty (get r "Vaccination") in
  let* m := or_empty (get r "Medication") in
  let vacc := Str.strip (str v) in
  let med := Str.strip (str m) in
  let '(errors, note) :=
    if bool_decide (vacc = "") && bool_decide (med = "") then
      (["Missing Vaccination and Medication"], "")
    else if negb (bool_decide (vacc = "")) && bool_decide (med = "") then
      ([], NOTE_ONLY_VACC)
    else if negb (bool_decide (med = "")) && bool_decide (vacc = "") then
      ([], NOTE_ONLY_MED)
    else ([], "") in
  Ok (check_care_cols REQUIRED_CARE_COLS r errors, note).

Definition check_care_row (r : row) : result (option string * string) :=
  let* (errors, note) := care_errors r in Ok (join_errors errors, note).

(** ** Schema normalisation (analyze, after the headers are trimmed) *)

(** [for col in set(REQUIRED_OPERATIONAL_COLS + REQUIRED_CARE_COLS) -
    set(df.columns): df[col] = pd.NA], seen from one row. *)
Definition add_missing_columns (r : row) : row :=
  foldr (λ col acc, if r !! col is None then <[col := VNA]> acc else acc)
        r (REQUIRED_OPERATIONAL_COLS ++ REQUIRED_CARE_COLS).

(** The columns sent through [pd.to_numeric]. *)
Definition is_numeric_col (col : string) : bool :=
  negb (bool_decide (col ∈ OPTIONAL_OPERATIONAL_COLS))
  && negb (bool_decide (col ∈ ["Flock"; "Date"; "Animal Feed Formula Name";
                               "Supplied Feed"; "Female Feed Formula ID";
                               "Female Feed Type ID"])).

Section Normalizer.

(** pandas' reading of text as a number; [None] when the text is not one. *)
Variable parse_number : string → option value.

(** [pd.to_numeric(..., errors='coerce')] on one cell. *)
Definition to_numeric (v : value) : value :=
  match v with
  | VNone | VNA | VNaN => VNaN
  | VInf negative => VInf negative
  | VNum z => VNum z
  | VFloat z => VFloat z
  | VStr s => default VNaN (parse_number s)
  end.

Definition coerce_numeric_columns (r : row) : row :=
  foldl (λ acc col, if is_numeric_col col then alter to_numeric col acc else acc)
        r REQUIRED_OPERATIONAL_COLS.

Definition normalize (df : list row) : list row :=
  (λ r, coerce_numeric_columns (add_missing_columns r)) <$> df.

End Normalizer.

(** ** Duplicate detection *)

(** [DataFrame.duplicated(subset=..., keep=False)] over the list of row keys:
    a row is marked when its key occurs in another row, before or after. *)
Fixpoint duplicated_from {K} `{EqDecision K} (seen keys : list K) : list bool :=
  match keys with
  | [] => []
  | k :: rest =>
    (bool_decide (k ∈ seen) || bool_decide (k ∈ rest))
      :: duplicated_from (k :: seen) rest
  end.

Definition duplicated {K} `{EqDecision K} (keys : list K) : list bool :=
  duplicated_from [] keys.

(** Python's [==] and [hash] do not tell an int from the float of the same
    value: [1 == 1.0]. *)
Definition canonical (v : value) : value :=
  match v with
  | VFloat z => VNum z
  | _ => v
  end.

(** The label pandas groups a cell under: every missing value gets the same
    label, any other value the label of the values equal to it. *)
Definition label (v : value) : option value :=
  if isna v then None else Some (canonical v).

(** [subset=['Flock', 'Date']] *)
Definition operational_key (r : row) : option value * option value :=
  (label (get r "Flock"), label (get r "Date")).

(** The two shapes of the fields of [care_key]. *)
Definition upper_or_empty (v : value) : string :=
  if notna v then Str.upper (Str.strip (str v)) else "".

Definition strip_or_empty (v : value) : string :=
  if notna v then Str.strip (str v) else "".

(** The tuple built by the lambda of [care_df['care_key']]. *)
Definition care_key (r : row) : list string :=
  [ Str.upper (Str.strip (str (get r "Flock")));
    Str.strip (str (get r "Date"));
    upper_or_empty (get r "Vaccination");
    upper_or_empty (get r "Vacc Method");
    upper_or_empty (get r "Vacc Type");
    upper_or_empty (get r "VaccinevDoze");
    upper_or_empty (get r "Medication");
    upper_or_empty (get r "Medication Dose");
    upper_or_empty (get r "Medication Batch");
    strip_or_empty (get r "Medication Exp Date") ].

(** [if not frame.empty: frame.duplicated(...) else: False] *)
Definition duplicate_error {K} `{EqDecision K} (keys : list K) : list bool :=
  match keys with
  | [] => (λ _, false) <$> keys
  | _ => duplicated keys
  end.

(** ** Result assembly *)

(** The cells of the frames once the service has added its own columns. *)
Inductive cell : Type :=
| CVal (v : value)
| CBool (b : bool)
| CKey (k : list string).

Global Instance cell_eq_dec : EqDecision cell.
Proof. solve_decision. Defined.

Abbreviation record := (gmap string cell).

(** [df[col] = series] *)
Definition assign (col : string) (series : list cell) (df : list record)
    : list record :=
  zip_with (λ rec c, <[col := c]> rec) df series.

Definition error_cell (e : option string) : cell :=
  match e with
  | None => CVal VNone
  | Some s => CVal (VStr s)
  end.

(** [series.notnull() & (series != "")] *)
Definition has_text (e : option string) : bool :=
  match e with
  | None => false
  | Some s => negb (bool_decide (s = ""))
  end.

(** [series.astype(str)] *)
Definition astype_str (e : option string) : string :=
  match e with
  | None => "None"
  | Some s => s
  end.

(** [df.loc[df['Duplicate Error'] == True, 'has_error'] = True] *)
Definition mark_has_error (dups has_error : list bool) : list bool :=
  zip_with (λ dup h, if dup : bool then true else h) dups has_error.

(** [df.loc[df['Duplicate Error'] == True, 'Error Details'] =
     df['Error Details'].astype(str) + suffix] *)
Definition mark_error_details (suffix : string) (dups : list bool)
    (errors : list (option string)) : list (option string) :=
  zip_with (λ dup e, if dup : bool then Some (astype_str e +:+ suffix) else e)
           dups errors.

Definition OPERATIONAL_SUFFIX : string := "; Duplicate Flock/Date".
Definition CARE_SUFFIX : string :=
  "; Duplicate Flock/Date/Vaccination/Medication".

(** clean_nan_inf *)
Definition clean_cell (c : cell) : cell :=
  match c with
  | CVal VNaN | CVal (VInf _) => CVal VNone
  | _ => c
  end.

Definition clean_nan_inf (rec : record) : record := clean_cell <$> rec.

(** A row of the uploaded frame as a row of the annotated frame. *)
Definition to_record (r : row) : record := CVal <$> r.

(** The operational half of analyze, from the operational frame on. *)
Definition operational_records (operational_df : list row) : list record :=
  let dups := duplicate_error (operational_key <$> operational_df) in
  let errors := check_operational_row <$> operational_df in
  let has_error := mark_has_error dups (has_text <$> errors) in
  let errors := mark_error_details OPERATIONAL_SUFFIX dups errors in
  let df := to_record <$> operational_df in
  let df := assign "Duplicate Error" (CBool <$> dups) df in
  let df := assign "Error Details" (error_cell <$> errors) df in
  let df := assign "has_error" (CBool <$> has_error) df in
  clean_nan_inf <$> df.

(** The care half.  [apply(..., result_type='expand')] over a frame without
    rows gives back a copy of that frame, which has no column [0]: the
    lookup [care_errors_and_notes[0]] raises KeyError. *)
Definition care_records (care_df : list row) : result (list record) :=
  let keys := care_key <$> care_df in
  let dups := duplicate_error keys in
  let* checked := mapM check_care_row care_df in
  match care_df with
  | [] => Raise KeyError
  | _ =>
    let errors := fst <$> checked in
    let notes := snd <$> checked in
    let has_error := mark_has_error dups (has_text <$> errors) in
    let errors := mark_error_details CARE_SUFFIX dups errors in
    let df := to_record <$> care_df in
    let df := assign "care_key" (CKey <$> keys) df in
    let df := assign "Duplicate Error" (CBool <$> dups) df in
    let df := assign "Error Details" (error_cell <$> errors) df in
    let df := assign "note" ((λ n, CVal (VStr n)) <$> notes) df in
    let df := assign "has_error" (CBool <$> has_error) df in
    Ok (clean_nan_inf <$> df)
  end.

(** ** analyze *)

Record response : Type := Response {
  operational_data : list record;
  care_data : list record
}.

(** The engine on a normalised frame. *)
Definition analyze_normalized (df : list row) : result response :=
  let operational_df := filter (λ r, is_operational_row r = true) df in
  let care_df := filter (λ r, is_operational_row r ≠ true) df in
  let operational := operational_records operational_df in
  let* care := care_records care_df in
  Ok (Response operational care).

Definition analyze (parse_number : string → option value) (df : list row)
    : result response :=
  analyze_normalized (normalize parse_number df).

(** ** Row-wise reading of the assembled frames

    What the column assignments of analyze leave in the record of one row,
    given the row, its duplicate flag and the outcome of its check. *)

Definition flagged_error (suffix : string) (dup : bool) (e : option string)
    : option string :=
  if dup then Some (astype_str e +:+ suffix) else e.

Definition annotated_operational (r : row) (dup : bool) : record :=
  let e := check_operational_row r in
  clean_nan_inf
    (<["has_error" := CBool (if dup then true else has_text e)]>
     (<["Error Details" := error_cell (flagged_error OPERATIONAL_SUFFIX dup e)]>
      (<["Duplicate Error" := CBool dup]> (to_record r)))).

Definition annotated_care (r : row) (dup : bool) (e : option string)
    (note : string) : record :=
  clean_nan_inf
    (<["has_error" := CBool (if dup then true else has_text e)]>
     (<["note" := CVal (VStr note)]>
      (<["Error Details" := error_cell (flagged_error CARE_SUFFIX dup e)]>
       (<["Duplicate Error" := CBool dup]>
        (<["care_key" := CKey (care_key r)]> (to_record r)))))).

(** The columns analyze adds to the operational and to the care frame. *)
Definition OPERATIONAL_ADDED_COLS : list string :=
  ["Duplicate Error"; "Error Details"; "has_error"].

Definition CARE_ADDED_COLS : list string :=
  ["care_key"; "Duplicate Error"; "Error Details"; "note"; "has_error"].


(** ** The properties, as the specification words them *)

(** A present, truthy value (Row Classifier). *)
Definition present_truthy (v : value) : Prop :=
  match v with
  | VNone | VNA | VNaN => False
  | VInf _ => True
  | VNum z | VFloat z => z ≠ 0%Z
  | VStr s => Str.strip s ∉ [""; "0"; "nan"; "NaN"]
  end.

(** RequiredOperational without OptionalOperational, Flock and Date. *)
Definition QUALIFYING_COLS : list string :=
  [ "Animal Mortality"; "Animals Culled"; "Table Eggs Prod";
    "Animal Feed Formula Name"; "Supplied Feed"; "Feed Received (Kg)";
    "Animal Feed Consumed"; "Water Consumption";
    "Female Feed Formula ID"; "Temperature Low"; "Ammonia Level";
    "Animal Feed Inventory"; "Female Feed Type ID";
    "Light_Duration (HU)"; "Light intensity %" ].

(** RequiredCare without Vaccination and Medication. *)
Definition OTHER_CARE_COLS : list string :=
  [ "Creation User ID"; "Vacc Method"; "Vacc Type"; "VaccinevDoze";
    "Medication Batch"; "Concentration %"; "Record Source Type";
    "Medication Dose"; "Medication Exp Date"; "Doctor Name"; "Doses Unit";
    "Produced PS_Nest_HE"; "Vaccine Name" ].

(** Missing, or trim-empty after string conversion (Row Validator). *)
Definition missing_or_empty (v : value) : Prop :=
  isna v = true ∨ Str.strip (str v) = "".

(** Numeric and negative. *)
Definition negative_number (v : value) : Prop :=
  match v with
  | VNum z | VFloat z => (z < 0)%Z
  | VInf negative => negative = true
  | _ => False
  end.

(** The messages of the operational rule for one qualifying column. *)
Definition operational_finding (r : row) (col : string) : list string :=
  if blank (get r col) then ["Missing " +:+ col]
  else if is_int_or_float (get r col) && lt_zero (get r col)
       then ["Negative value in " +:+ col]
       else [].

Definition missing_finding (r : row) (col : string) : list string :=
  if blank (get r col) then ["Missing " +:+ col] else [].

(** The number held by an int or a finite float cell. *)
Definition number_of (v : value) : option Z :=
  match v with
  | VNum z | VFloat z => Some z
  | _ => None
  end.

(** Two cells that group together: both missing, or the same value (an int
    and a float being the same value when they are the same number). *)
Definition same_cell (v w : value) : Prop :=
  (isna v = true ∧ isna w = true)
  ∨ (isna v = false ∧ isna w = false
     ∧ (v = w ∨ (is_Some (number_of v) ∧ number_of v = number_of w))).

Definition same_flock_date (r r' : row) : Prop :=
  same_cell (get r "Flock") (get r' "Flock")
  ∧ same_cell (get r "Date") (get r' "Date").


(** Vaccination or Medication, trimmed, a missing value as the empty string
    (Care rule). *)
Definition trimmed (v : value) : string := strip_or_empty v.

(** A cell that is either absent as None or text. *)
Definition plain (v : value) : Prop := v = VNone ∨ ∃ s, v = VStr s.

(** The outcome of the three-way check of the care rule on the trimmed
    Vaccination and Medication. *)
Definition three_way (vacc med : string) : list string * string :=
  if decide (vacc = "" ∧ med = "") then
    (["Missing Vaccination and Medication"], "")
  else if decide (vacc ≠ "" ∧ med = "") then ([], NOTE_ONLY_VACC)
  else if decide (med ≠ "" ∧ vacc = "") then ([], NOTE_ONLY_MED)
  else ([], "").

(** ** Sample data *)

(** A text parser for the examples: decimal integer literals. *)
Fixpoint digits_value (s : string) (acc : Z) : option Z :=
  match s with
  | EmptyString => Some acc
  | String c t =>
    match Ascii.is_nat c with
    | Some d => digits_value t (10 * acc + Z.of_nat d)%Z
    | None => None
    end
  end.

Definition parse_integer (s : string) : option value :=
  match Str.strip s with
  | EmptyString => None
  | String "-" t =>
    if bool_decide (t = "") then None
    else (λ z, VNum (- z)%Z) <$> digits_value t 0
  | t => VNum <$> digits_value t 0
  end.

(** A sheet row with every catalogue column empty. *)
Definition empty_row : row :=
  list_to_map ((λ col, (col, VNaN)) <$>
               (REQUIRED_OPERATIONAL_COLS ++ REQUIRED_CARE_COLS)).

Definition set_cells (cells : list (string * value)) (r : row) : row :=
  foldr (λ '(col, v) acc, <[col := v]> acc) r cells.

(** An operational row with every required operational field valid. *)
Definition good_operational_row : row :=
  set_cells
    [ ("Flock", VStr "A1"); ("Date", VStr "2024-01-01");
      ("Animal Mortality", VNum 2); ("Animals Culled", VNum 1);
      ("Table Eggs Prod", VNum 950); ("Animal Feed Formula Name", VStr "Layer 1");
      ("Supplied Feed", VStr "Mill A"); ("Feed Received (Kg)", VNum 500);
      ("Animal Feed Consumed", VNum 120); ("Water Consumption", VNum 240);
      ("Female Feed Formula ID", VStr "F-7"); ("Temperature Low", VNum 18);
      ("Ammonia Level", VNum 3); ("Animal Feed Inventory", VNum 380);
      ("Female Feed Type ID", VStr "T-2"); ("Light_Duration (HU)", VNum 14);
      ("Light intensity %", VNum 60) ]
    empty_row.

(** The same row with a negative feed consumption. *)
Definition negative_feed_row : row :=
  <["Animal Feed Consumed" := VNum (-5)]> good_operational_row.

(** A care row with every required care field filled in. *)
Definition good_care_row : row :=
  set_cells
    [ ("Flock", VStr "A1"); ("Date", VStr "2024-01-02");
      ("Vaccination", VStr "NDV"); ("Creation User ID", VStr "u17");
      ("Medication", VStr "Tylosin"); ("Vacc Method", VStr "Spray");
      ("Vacc Type", VStr "Live"); ("VaccinevDoze", VNum 1);
      ("Medication Batch", VStr "B-2291"); ("Concentration %", VNum 10);
      ("Record Source Type", VStr "Manual"); ("Medication Dose", VNum 2);
      ("Medication Exp Date", VStr "2025-06-30"); ("Doctor Name", VStr "Dr. Salem");
      ("Doses Unit", VStr "ml"); ("Produced PS_Nest_HE", VNum 0);
      ("Vaccine Name", VStr "Lasota") ]
    empty_row.

(** A care row whose Vaccination and Medication cells are empty in the
    sheet: pandas reads them as nan. *)
Definition unfilled_care_row : row :=
  set_cells [ ("Flock", VStr "A1"); ("Date", VStr "2024-01-03") ] empty_row.

(** An upload with only the Flock and Date columns. *)
Definition flock_date_only_row : row :=
  {[ "Flock" := VStr "A1"; "Date" := VStr "2024-01-01" ]}.

(** An upload with the same valid operational row twice and a care row. *)
Definition repeated_operational_frame : list row :=
  [ good_operational_row; good_operational_row; good_care_row ].

(** The same with the care row twice instead. *)
Definition repeated_care_frame : list row :=
  [ good_operational_row; good_care_row; good_care_row ].

Definition mixed_frame : list row :=
  [ good_care_row; negative_feed_row; unfilled_care_row; good_operational_row ].

(** One column of the two tables of a response. *)
Definition column (col : string) (resp : response)
    : list (option cell) * list (option cell) :=
  ((λ rec : record, rec !! col) <$> operational_data resp,
   (λ rec : record, rec !! col) <$> care_data resp).


(** ** Further notions used by the properties of the code *)

(** A float cell that JSON cannot carry: nan, inf or -inf. *)
Definition non_finite (c : cell) : Prop :=
  c = CVal VNaN ∨ ∃ negative, c = CVal (VInf negative).

(** The whole column catalogue. *)
Definition CATALOGUE : list string :=
  REQUIRED_OPERATIONAL_COLS ++ REQUIRED_CARE_COLS.

(** The columns of RequiredOperational that analyze coerces to numbers. *)
Definition NUMERIC_COLS : list string :=
  [ "Animal Mortality"; "Animals Culled"; "Table Eggs Prod";
    "Feed Received (Kg)"; "Animal Feed Consumed"; "Water Consumption";
    "Temperature Low"; "Ammonia Level"; "Animal Feed Inventory";
    "Light_Duration (HU)"; "Light intensity %" ].

(** One row through the Schema Normalizer. *)
Definition normalize_row (parse_number : string → option value) (r : row)
    : row :=
  coerce_numeric_columns parse_number (add_missing_columns r).

(** A text parser that only ever yields an int or a float. *)
Definition numeric_parser (parse_number : string → option value) : Prop :=
  ∀ s v, parse_number s = Some v → is_int_or_float v = true.

(** A care row, and a care row that check_care_row cannot read. *)
Definition is_care_row (r : row) : Prop := is_operational_row r ≠ true.

Definition has_NA_pair (r : row) : Prop :=
  get r "Vaccination" = VNA ∨ get r "Medication" = VNA.

(** [name.endswith(suffix)] *)
Fixpoint endswith (name suffix : string) : bool :=
  bool_decide (name = suffix)
  || match name with
     | EmptyString => false
     | String _ rest => endswith rest suffix
     end.

(** [file.filename.endswith(('.xls', '.xlsx'))], the test of analyze on the
    name of the upload. *)
Definition allowed_filename (filename : string) : bool :=
  endswith filename ".xls" || endswith filename ".xlsx".

(** * Proofs *)

(** ** The exception monad *)

Lemma Ok_inj {A} (a b : A) : Ok a = Ok b → a = b.
Proof. by intros [= ->]. Qed.

Lemma is_ok_true {A} (m : result A) : is_ok m = true → ∃ a, m = Ok a.
Proof. destruct m; [eauto|done]. Qed.

Lemma mapM_length {A B} (f : A → result B) xs ys :
  mapM f xs = Ok ys → length ys = length xs.
Proof.
  revert ys. induction xs as [|x xs IH]; intros ys; simpl.
  - by intros [= <-].
  - destruct (f x) as [y|]; [|done]. simpl.
    destruct (mapM f xs) as [ys'|]; [|done]. simpl.
    intros [= <-]. simpl. f_equal. by apply IH.
Qed.

Lemma mapM_lookup {A B} (f : A → result B) xs ys i x :
  mapM f xs = Ok ys → xs !! i = Some x →
  ∃ y, f x = Ok y ∧ ys !! i = Some y.
Proof.
  revert ys i. induction xs as [|x0 xs IH]; intros ys i; simpl; [done|].
  destruct (f x0) as [y0|] eqn:Hf; [|done]. simpl.
  destruct (mapM f xs) as [ys'|]; [|done]. simpl.
  intros [= <-]. destruct i as [|i]; simpl.
  - intros [= <-]. eauto.
  - intros Hi. by apply IH.
Qed.

Lemma mapM_raise {A B} (f : A → result B) xs x e :
  x ∈ xs → f x = Raise e → (∀ x' e', f x' = Raise e' → e' = e) →
  mapM f xs = Raise e.
Proof.
  intros Hx Hf Hone. induction xs as [|x0 xs IH]; [by apply elem_of_nil in Hx|].
  simpl. destruct (f x0) as [y0|e0] eqn:Hf0; simpl.
  - apply elem_of_cons in Hx as [->|Hx]; [congruence|].
    by rewrite IH.
  - f_equal. by eapply Hone.
Qed.

Lemma mapM_total {A B} (f : A → result B) xs :
  (∀ x, x ∈ xs → ∃ y, f x = Ok y) → ∃ ys, mapM f xs = Ok ys.
Proof.
  induction xs as [|x xs IH]; intros Hall; simpl; [eauto|].
  destruct (Hall x) as [y ->]; [by left|]. simpl.
  destruct IH as [ys ->]; [|simpl; eauto].
  intros x' Hx'. apply Hall. by right.
Qed.

(** ** duplicated *)

Section Duplicated.
Context {K : Type} `{EqDecision K}.

Lemma length_duplicated_from (seen keys : list K) :
  length (duplicated_from seen keys) = length keys.
Proof.
  revert seen. induction keys as [|k keys IH]; intros seen; simpl; [done|].
  by rewrite IH.
Qed.

Lemma duplicated_from_lookup (seen keys : list K) i k :
  keys !! i = Some k →
  ∃ b, duplicated_from seen keys !! i = Some b
       ∧ (b = true ↔ k ∈ seen ∨ ∃ j, j ≠ i ∧ keys !! j = Some k).
Proof.
  revert seen i. induction keys as [|k0 keys IH]; intros seen i; [done|].
  destruct i as [|i]; simpl.
  - intros [= ->]. eexists; split; [done|].
    rewrite orb_true_iff, !bool_decide_eq_true.
    split; (intros [?|Hr]; [by left|right]).
    + apply list_elem_of_lookup in Hr as [j Hj].
      exists (S j). split; [done|]. done.
    + destruct Hr as ([|j] & Hne & Hj); [done|].
      apply list_elem_of_lookup. by exists j.
  - intros Hi. destruct (IH (k0 :: seen) i Hi) as (b & Hb & Hiff).
    exists b. split; [done|]. rewrite Hiff, elem_of_cons. split.
    + intros [[->|?]|(j & Hne & Hj)].
      * right. exists 0. split; [done|]. done.
      * by left.
      * right. exists (S j). split; [congruence|]. done.
    + intros [?|([|j] & Hne & Hj)].
      * left. by right.
      * simpl in Hj. injection Hj as ->. left. by left.
      * right. exists j. split; [congruence|]. done.
Qed.

Lemma length_duplicate_error (keys : list K) :
  length (duplicate_error keys) = length keys.
Proof.
  destruct keys; [done|]. unfold duplicate_error, duplicated.
  apply length_duplicated_from.
Qed.

(** A row is marked exactly when another row has its key. *)
Lemma duplicate_error_lookup (keys : list K) i k :
  keys !! i = Some k →
  ∃ b, duplicate_error keys !! i = Some b
       ∧ (b = true ↔ ∃ j, j ≠ i ∧ keys !! j = Some k).
Proof.
  intros Hi. destruct keys as [|k0 keys]; [done|].
  unfold duplicate_error, duplicated.
  destruct (duplicated_from_lookup [] _ i k Hi) as (b & Hb & Hiff).
  exists b. split; [done|]. rewrite Hiff. split; [|by right].
  intros [Hnil|?]; [|done]. by apply elem_of_nil in Hnil.
Qed.

End Duplicated.

(** ** The assembled frames, row by row *)

Lemma length_operational_records df :
  length (operational_records df) = length df.
Proof.
  unfold operational_records, assign, mark_has_error, mark_error_details.
  repeat (rewrite length_fmap || rewrite length_zip_with
          || rewrite length_duplicate_error).
  by rewrite !Nat.min_id.
Qed.

Lemma operational_records_lookup df i r :
  df !! i = Some r →
  ∃ dup, duplicate_error (operational_key <$> df) !! i = Some dup
         ∧ operational_records df !! i = Some (annotated_operational r dup).
Proof.
  intros Hi.
  destruct (duplicate_error_lookup (operational_key <$> df) i (operational_key r))
    as (dup & Hdup & _); [by rewrite list_lookup_fmap, Hi|].
  exists dup. split; [done|].
  unfold operational_records, assign, mark_has_error, mark_error_details.
  rewrite list_lookup_fmap, !lookup_zip_with, !list_lookup_fmap,
    !lookup_zip_with, !list_lookup_fmap, Hdup, Hi. simpl.
  unfold annotated_operational, flagged_error. by destruct dup.
Qed.

Lemma length_care_records df recs :
  care_records df = Ok recs → length recs = length df.
Proof.
  unfold care_records.
  destruct (mapM check_care_row df) as [checked|] eqn:Hm; [|done].
  unfold bind. destruct df as [|r0 df'] eqn:Hdf; [done|]. rewrite <- Hdf in *.
  intros <-%Ok_inj. apply mapM_length in Hm.
  unfold assign, mark_has_error, mark_error_details.
  repeat (rewrite length_fmap || rewrite length_zip_with
          || rewrite length_duplicate_error).
  by rewrite Hm, !Nat.min_id.
Qed.

Lemma care_records_lookup df recs i r :
  care_records df = Ok recs → df !! i = Some r →
  ∃ dup e note,
    duplicate_error (care_key <$> df) !! i = Some dup
    ∧ check_care_row r = Ok (e, note)
    ∧ recs !! i = Some (annotated_care r dup e note).
Proof.
  unfold care_records. intros Hrecs Hi.
  destruct (mapM check_care_row df) as [checked|] eqn:Hm; [|done].
  unfold bind in Hrecs.
  destruct (mapM_lookup _ _ _ _ _ Hm Hi) as ([e note] & Hcheck & Hchecked).
  destruct (duplicate_error_lookup (care_key <$> df) i (care_key r))
    as (dup & Hdup & _); [by rewrite list_lookup_fmap, Hi|].
  exists dup, e, note. split; [done|]. split; [done|].
  destruct df as [|r0 df'] eqn:Hdf; [done|]. rewrite <- Hdf in *.
  apply Ok_inj in Hrecs as <-.
  unfold assign, mark_has_error, mark_error_details.
  rewrite list_lookup_fmap, !lookup_zip_with, !list_lookup_fmap,
    !lookup_zip_with, !list_lookup_fmap, Hdup, Hi, Hchecked. simpl.
  unfold annotated_care, flagged_error. by destruct dup.
Qed.

(** Every record of the operational frame comes from a row of it. *)
Lemma operational_records_elem df rec :
  rec ∈ operational_records df →
  ∃ i r dup, df !! i = Some r
    ∧ duplicate_error (operational_key <$> df) !! i = Some dup
    ∧ rec = annotated_operational r dup.
Proof.
  intros Hrec. apply list_elem_of_lookup in Hrec as [i Hrec].
  destruct (lookup_lt_is_Some_2 df i) as [r Hr].
  { rewrite <- length_operational_records. by eapply lookup_lt_Some. }
  destruct (operational_records_lookup df i r Hr) as (dup & Hdup & Hlook).
  exists i, r, dup. split; [done|]. split; [done|]. congruence.
Qed.

Lemma care_records_elem df recs rec :
  care_records df = Ok recs → rec ∈ recs →
  ∃ i r dup e note, df !! i = Some r
    ∧ duplicate_error (care_key <$> df) !! i = Some dup
    ∧ check_care_row r = Ok (e, note)
    ∧ rec = annotated_care r dup e note.
Proof.
  intros Hrecs Hrec. apply list_elem_of_lookup in Hrec as [i Hrec].
  destruct (lookup_lt_is_Some_2 df i) as [r Hr].
  { rewrite <- (length_care_records df recs Hrecs). by eapply lookup_lt_Some. }
  destruct (care_records_lookup df recs i r Hrecs Hr)
    as (dup & e & note & Hdup & Hcheck & Hlook).
  exists i, r, dup, e, note. repeat (split; [done|]). congruence.
Qed.

(** The fields of an annotated record. *)
Lemma annotated_operational_fields r dup :
  let e := check_operational_row r in
  annotated_operational r dup !! "Duplicate Error" = Some (CBool dup)
  ∧ annotated_operational r dup !! "Error Details"
    = Some (error_cell (flagged_error OPERATIONAL_SUFFIX dup e))
  ∧ annotated_operational r dup !! "has_error"
    = Some (CBool (if dup then true else has_text e)).
Proof.
  unfold annotated_operational, clean_nan_inf. simpl.
  rewrite !lookup_fmap.
  rewrite lookup_insert_eq.
  rewrite (lookup_insert_ne _ "has_error" "Error Details") by done.
  rewrite lookup_insert_eq.
  rewrite (lookup_insert_ne _ "has_error" "Duplicate Error") by done.
  rewrite (lookup_insert_ne _ "Error Details" "Duplicate Error") by done.
  rewrite lookup_insert_eq. simpl.
  split; [done|]. split; [|done].
  by destruct (flagged_error _ _ _).
Qed.

Lemma annotated_care_fields r dup e note :
  annotated_care r dup e note !! "care_key" = Some (CKey (care_key r))
  ∧ annotated_care r dup e note !! "Duplicate Error" = Some (CBool dup)
  ∧ annotated_care r dup e note !! "Error Details"
    = Some (error_cell (flagged_error CARE_SUFFIX dup e))
  ∧ annotated_care r dup e note !! "note" = Some (CVal (VStr note))
  ∧ annotated_care r dup e note !! "has_error"
    = Some (CBool (if dup then true else has_text e)).
Proof.
  unfold annotated_care, clean_nan_inf.
  rewrite !lookup_fmap.
  repeat (rewrite lookup_insert_eq || rewrite lookup_insert_ne by done).
  simpl. repeat split; try done.
  by destruct (flagged_error _ _ _).
Qed.



(** ** Row Classifier *)

Lemma skipped_false col :
  skipped col = false ↔ col ∉ OPTIONAL_OPERATIONAL_COLS ++ ["Flock"; "Date"].
Proof. unfold skipped. apply bool_decide_eq_false. Qed.

Lemma qualifying_cols_filter :
  QUALIFYING_COLS = filter (λ col, skipped col = false) REQUIRED_OPERATIONAL_COLS.
Proof. by vm_compute. Qed.

Lemma elem_of_qualifying_cols col :
  col ∈ QUALIFYING_COLS ↔
  col ∈ REQUIRED_OPERATIONAL_COLS
  ∧ (col ∉ OPTIONAL_OPERATIONAL_COLS ++ ["Flock"; "Date"]).
Proof.
  rewrite qualifying_cols_filter, list_elem_of_filter, skipped_false. tauto.
Qed.

Lemma signals_present_truthy v : signals v = true ↔ present_truthy v.
Proof.
  destruct v as [| | |negative|z|z|s]; unfold signals; simpl; try done.
  - rewrite negb_true_iff. apply Z.eqb_neq.
  - rewrite negb_true_iff. apply Z.eqb_neq.
  - rewrite negb_true_iff. apply bool_decide_eq_false.
Qed.

Lemma is_operational_cols_spec cols r :
  is_operational_cols cols r = true ↔
  ∃ col, col ∈ cols ∧ skipped col = false ∧ signals (get r col) = true.
Proof.
  induction cols as [|c cols IH]; simpl.
  - split; [done|]. intros (col & Hin & _). by apply elem_of_nil in Hin.
  - destruct (skipped c) eqn:Hskip.
    + rewrite IH. split.
      * intros (col & Hin & Hrest). exists col. split; [by right|done].
      * intros (col & Hin & Hs & Hsig).
        apply elem_of_cons in Hin as [->|Hin]; [congruence|]. eauto.
    + destruct (signals (get r c)) eqn:Hsig.
      * split; [|done]. intros _. exists c. split; [by left|done].
      * rewrite IH. split.
        -- intros (col & Hin & Hrest). exists col. split; [by right|done].
        -- intros (col & Hin & Hs & Hsig').
           apply elem_of_cons in Hin as [->|Hin]; [congruence|]. eauto.
Qed.

(** C7.  A row is operational exactly when one of the columns of
    RequiredOperational outside OptionalOperational, Flock and Date holds a
    present, truthy value (a non-zero number, or text whose trimmed form is
    none of "", "0", "nan", "NaN"); a row is a care row, that is, not
    operational, exactly when no such column does. *)
Theorem is_operational_row_iff_truthy_signal (r : row) :
  (is_operational_row r = true ↔
   (∃ col, col ∈ REQUIRED_OPERATIONAL_COLS
           ∧ (col ∉ OPTIONAL_OPERATIONAL_COLS ++ ["Flock"; "Date"])
           ∧ present_truthy (get r col)))
  ∧ (is_operational_row r ≠ true ↔
     ∀ col, col ∈ QUALIFYING_COLS → ¬ present_truthy (get r col)).
Proof.
  assert (is_operational_row r = true ↔
          (∃ col, col ∈ REQUIRED_OPERATIONAL_COLS
                  ∧ (col ∉ OPTIONAL_OPERATIONAL_COLS ++ ["Flock"; "Date"])
                  ∧ present_truthy (get r col))) as Hiff.
  { unfold is_operational_row. rewrite is_operational_cols_spec.
    split; intros (col & Hin & Hskip & Hsig); exists col.
    - by rewrite <- skipped_false, <- signals_present_truthy.
    - by rewrite skipped_false, signals_present_truthy. }
  split; [done|]. rewrite Hiff. split.
  - intros Hno col [Hin Hq]%elem_of_qualifying_cols Htruthy.
    apply Hno. eauto.
  - intros Hno (col & Hin & Hq & Htruthy).
    apply (Hno col); [|done]. by apply elem_of_qualifying_cols.
Qed.

(** ** Row Validator: the operational rule *)

Lemma blank_iff v : blank v = true ↔ missing_or_empty v.
Proof.
  unfold blank, missing_or_empty.
  by rewrite orb_true_iff, bool_decide_eq_true.
Qed.

Lemma negative_iff v :
  is_int_or_float v && lt_zero v = true ↔ negative_number v.
Proof.
  destruct v as [| | |negative|z|z|s]; simpl; try done; apply Z.ltb_lt.
Qed.

Lemma check_operational_cols_spec cols r errors :
  check_operational_cols cols r errors =
  errors ++ concat (operational_finding r <$>
                    filter (λ col, skipped col = false) cols).
Proof.
  revert errors. induction cols as [|c cols IH]; intros errors; simpl.
  - by rewrite app_nil_r.
  - destruct (skipped c) eqn:Hskip.
    + rewrite filter_cons_False by congruence. apply IH.
    + rewrite filter_cons_True by done. simpl.
      unfold operational_finding at 1.
      destruct (blank (get r c)); [by rewrite IH, <- app_assoc|].
      destruct (is_int_or_float (get r c) && lt_zero (get r c));
        by rewrite IH, <- ?app_assoc.
Qed.

Lemma check_missing_cols_spec cols r errors :
  check_missing_cols cols r errors =
  errors ++ concat (missing_finding r <$> cols).
Proof.
  revert errors. induction cols as [|c cols IH]; intros errors; simpl.
  - by rewrite app_nil_r.
  - unfold missing_finding at 1.
    destruct (blank (get r c)); by rewrite IH, <- ?app_assoc.
Qed.

Lemma operational_errors_spec r :
  operational_errors r =
  concat (operational_finding r <$> QUALIFYING_COLS)
  ++ concat (missing_finding r <$> ["Flock"; "Date"]).
Proof.
  unfold operational_errors.
  by rewrite check_missing_cols_spec, check_operational_cols_spec,
    <- qualifying_cols_filter.
Qed.

Lemma join_errors_spec errors :
  join_errors errors =
  if decide (errors = []) then None else Some (Str.join "; " errors).
Proof. by destruct errors. Qed.

Lemma missing_message_inj col col' :
  "Missing " +:+ col = "Missing " +:+ col' → col = col'.
Proof. apply (inj (String.app "Missing ")). Qed.

Lemma negative_message_inj col col' :
  "Negative value in " +:+ col = "Negative value in " +:+ col' → col = col'.
Proof. apply (inj (String.app "Negative value in ")). Qed.

Lemma elem_of_operational_finding r col msg :
  msg ∈ operational_finding r col ↔
  (msg = "Missing " +:+ col ∧ missing_or_empty (get r col))
  ∨ (msg = "Negative value in " +:+ col
     ∧ ¬ missing_or_empty (get r col) ∧ negative_number (get r col)).
Proof.
  unfold operational_finding. rewrite <- blank_iff, <- negative_iff.
  destruct (blank (get r col)).
  - rewrite list_elem_of_singleton. split; [by left|].
    by intros [[? _]|(_ & Hn & _)].
  - destruct (is_int_or_float (get r col) && lt_zero (get r col)).
    + rewrite list_elem_of_singleton. split; [right; by split|].
      by intros [[_ ?]|[? _]].
    + rewrite elem_of_nil. split; [done|].
      by intros [[_ ?]|(_ & _ & ?)].
Qed.

Lemma elem_of_missing_finding r col msg :
  msg ∈ missing_finding r col ↔
  msg = "Missing " +:+ col ∧ missing_or_empty (get r col).
Proof.
  unfold missing_finding. rewrite <- blank_iff.
  destruct (blank (get r col)).
  - rewrite list_elem_of_singleton. split; [done|]. by intros [? _].
  - rewrite elem_of_nil. split; [done|]. by intros [_ ?].
Qed.

Lemma elem_of_concat_fmap {A B} (f : A → list B) (l : list A) (y : B) :
  y ∈ concat (f <$> l) ↔ ∃ x, x ∈ l ∧ y ∈ f x.
Proof.
  induction l as [|x l IH]; simpl.
  - rewrite elem_of_nil. split; [done|]. intros (x & Hx & _).
    by apply elem_of_nil in Hx.
  - rewrite elem_of_app, IH. split.
    + intros [?|(x' & ? & ?)]; [exists x|exists x']; split; try done;
        [by left|by right].
    + intros (x' & [->|?]%elem_of_cons & ?); [by left|right; eauto].
Qed.

Lemma elem_of_operational_errors r msg :
  msg ∈ operational_errors r ↔
  (∃ col, col ∈ QUALIFYING_COLS ∧ msg ∈ operational_finding r col)
  ∨ (∃ col, col ∈ ["Flock"; "Date"] ∧ msg ∈ missing_finding r col).
Proof.
  by rewrite operational_errors_spec, elem_of_app, !elem_of_concat_fmap.
Qed.

Lemma no_findings r cols :
  Forall (λ col, operational_finding r col = []) cols →
  concat (operational_finding r <$> cols) = [].
Proof.
  induction 1 as [|c cols Hc _ IH]; [done|].
  rewrite fmap_cons. cbn [concat]. by rewrite Hc, IH.
Qed.

(** The findings of a row whose one violation is a negative value in
    [bad]. *)
Lemma only_negative_finding r bad cols :
  NoDup cols → bad ∈ cols →
  blank (get r bad) = false →
  is_int_or_float (get r bad) && lt_zero (get r bad) = true →
  Forall (λ col, col ≠ bad → operational_finding r col = []) cols →
  concat (operational_finding r <$> cols) = ["Negative value in " +:+ bad].
Proof.
  intros Hnd Hin Hblank Hneg Hall.
  induction cols as [|c cols IH]; [by apply elem_of_nil in Hin|].
  apply NoDup_cons in Hnd as [Hc Hnd]. apply Forall_cons in Hall as [Hc0 Hall].
  rewrite fmap_cons. cbn [concat]. apply elem_of_cons in Hin as [Heq|Hin].
  - subst c. unfold operational_finding at 1. rewrite Hblank, Hneg.
    cbn [app]. f_equal. apply no_findings. apply Forall_forall. intros col Hcol.
    rewrite Forall_forall in Hall. apply Hall; [done|]. by intros ->.
  - rewrite Hc0 by (by intros ->). cbn [app]. by apply IH.
Qed.

Lemma missing_not_negative col col' :
  "Missing " +:+ col ≠ "Negative value in " +:+ col'.
Proof. by cbv [String.append]. Qed.

Lemma has_error_of_message (dup : bool) (msg : string) :
  msg ≠ "" → (if dup then true else has_text (Some msg)) = true.
Proof.
  intros Hmsg. destruct dup; [done|]. simpl.
  by rewrite bool_decide_eq_false_2.
Qed.

(** C8.  The operational validator walks the columns of RequiredOperational
    outside OptionalOperational, Flock and Date, in catalogue order, emitting
    "Missing <col>" when the value is missing or trim-empty and otherwise
    "Negative value in <col>" when it is numeric and negative; then it emits
    "Missing Flock" / "Missing Date" when those are missing or empty.  The
    messages are joined with "; ", and no message means no error (None).  A
    row whose only violation is Animal Feed Consumed = -5 gets exactly
    "Negative value in Animal Feed Consumed" and has_error true. *)
Theorem operational_rule (r : row) :
  operational_errors r
  = concat (operational_finding r <$> QUALIFYING_COLS)
    ++ concat (missing_finding r <$> ["Flock"; "Date"])
  ∧ (∀ col, "Missing " +:+ col ∈ operational_errors r ↔
            col ∈ QUALIFYING_COLS ++ ["Flock"; "Date"]
            ∧ missing_or_empty (get r col))
  ∧ (∀ col, "Negative value in " +:+ col ∈ operational_errors r ↔
            col ∈ QUALIFYING_COLS
            ∧ ¬ missing_or_empty (get r col) ∧ negative_number (get r col))
  ∧ check_operational_row r
    = (if decide (operational_errors r = []) then None
       else Some (Str.join "; " (operational_errors r)))
  ∧ (get r "Animal Feed Consumed" = VNum (-5) →
     Forall (λ col, col ≠ "Animal Feed Consumed" →
                    operational_finding r col = []) QUALIFYING_COLS →
     missing_finding r "Flock" = [] → missing_finding r "Date" = [] →
     check_operational_row r = Some "Negative value in Animal Feed Consumed"
     ∧ ∀ df i, df !! i = Some r →
         ∃ rec dup,
           operational_records df !! i = Some rec
           ∧ rec !! "has_error" = Some (CBool true)
           ∧ rec !! "Duplicate Error" = Some (CBool dup)
           ∧ (dup = false →
              rec !! "Error Details"
              = Some (CVal (VStr "Negative value in Animal Feed Consumed")))).
Proof.
  split; [apply operational_errors_spec|].
  split; [|split; [|split]].
  - intros col. rewrite elem_of_operational_errors, elem_of_app. split.
    + intros [(c & Hc & Hmsg)|(c & Hc & Hmsg)].
      * apply elem_of_operational_finding in Hmsg as [[Heq Hm]|[Heq _]].
        -- apply missing_message_inj in Heq as ->. split; [by left|done].
        -- by apply missing_not_negative in Heq.
      * apply elem_of_missing_finding in Hmsg as [Heq Hm].
        apply missing_message_inj in Heq as ->. split; [by right|done].
    + intros [[Hc|Hc] Hm]; [left|right]; exists col; split; try done.
      * apply elem_of_operational_finding. by left.
      * by apply elem_of_missing_finding.
  - intros col. rewrite elem_of_operational_errors. split.
    + intros [(c & Hc & Hmsg)|(c & Hc & Hmsg)].
      * apply elem_of_operational_finding in Hmsg as [[Heq _]|[Heq Hn]].
        -- symmetry in Heq. by apply missing_not_negative in Heq.
        -- by apply negative_message_inj in Heq as ->.
      * apply elem_of_missing_finding in Hmsg as [Heq _].
        symmetry in Heq. by apply missing_not_negative in Heq.
    + intros (Hc & Hn). left. exists col. split; [done|].
      apply elem_of_operational_finding. by right.
  - apply join_errors_spec.
  - intros Hfeed Hothers Hflock Hdate.
    assert (operational_errors r = ["Negative value in Animal Feed Consumed"])
      as Herrors.
    { rewrite operational_errors_spec. cbn [fmap list_fmap concat].
      rewrite Hflock, Hdate, app_nil_r.
      apply (only_negative_finding r "Animal Feed Consumed"); try done.
      - apply (bool_decide_unpack _). vm_compute. exact I.
      - apply (bool_decide_unpack _). vm_compute. exact I.
      - by rewrite Hfeed.
      - by rewrite Hfeed. }
    assert (check_operational_row r
            = Some "Negative value in Animal Feed Consumed") as Hcheck.
    { unfold check_operational_row. by rewrite Herrors. }
    split; [done|]. intros df i Hi.
    destruct (operational_records_lookup df i r Hi) as (dup & _ & Hrec).
    destruct (annotated_operational_fields r dup) as (Hd & He & Hh).
    simpl in He, Hh. rewrite Hcheck in He, Hh.
    exists (annotated_operational r dup), dup. split; [done|].
    split; [|split; [done|]].
    + rewrite Hh. do 2 f_equal. apply has_error_of_message. discriminate.
    + intros ->. rewrite He. reflexivity.
Qed.

Lemma operational_rule_witness :
  check_operational_row negative_feed_row
  = Some "Negative value in Animal Feed Consumed"
  ∧ ∃ rec, operational_records [negative_feed_row] !! 0 = Some rec
           ∧ rec !! "has_error" = Some (CBool true).
Proof.
  destruct (operational_rule negative_feed_row) as (_ & _ & _ & _ & Hex).
  destruct Hex as [Hcheck Hrec].
  - vm_compute. reflexivity.
  - apply (bool_decide_unpack _). vm_compute. exact I.
  - vm_compute. reflexivity.
  - vm_compute. reflexivity.
  - split; [exact Hcheck|].
    destruct (Hrec [negative_feed_row] 0 eq_refl) as (rec & dup & H1 & H2 & _).
    exists rec. split; [exact H1|exact H2].
Defined.

(** ** Row Validator: the care rule *)

Lemma other_care_cols_filter :
  OTHER_CARE_COLS
  = filter (λ col, col ∉ ["Vaccination"; "Medication"]) REQUIRED_CARE_COLS.
Proof. vm_compute. reflexivity. Qed.

Lemma check_care_cols_spec cols r errors :
  check_care_cols cols r errors =
  errors ++ concat (missing_finding r <$>
                    filter (λ col, col ∉ ["Vaccination"; "Medication"]) cols).
Proof.
  revert errors. induction cols as [|c cols IH]; intros errors.
  - cbn. by rewrite app_nil_r.
  - cbn [check_care_cols]. case_bool_decide as Hc.
    + rewrite filter_cons_False by (by intros ?). apply IH.
    + rewrite filter_cons_True by done. rewrite fmap_cons. cbn [concat].
      unfold missing_finding at 1.
      destruct (blank (get r c)); by rewrite IH, <- ?app_assoc.
Qed.

Lemma three_way_spec (vacc med : string) :
  (if bool_decide (vacc = "") && bool_decide (med = "") then
     (["Missing Vaccination and Medication"], "")
   else if negb (bool_decide (vacc = "")) && bool_decide (med = "") then
     ([], NOTE_ONLY_VACC)
   else if negb (bool_decide (med = "")) && bool_decide (vacc = "") then
     ([], NOTE_ONLY_MED)
   else ([], "")) = three_way vacc med.
Proof.
  unfold three_way.
  destruct (decide (vacc = "")) as [Hv|Hv], (decide (med = "")) as [Hm|Hm].
  - rewrite !bool_decide_eq_true_2 by done. cbn.
    by rewrite decide_True by done.
  - rewrite (bool_decide_eq_true_2 _ Hv), (bool_decide_eq_false_2 _ Hm). cbn.
    rewrite decide_False by tauto. rewrite decide_False by tauto.
    by rewrite decide_True by done.
  - rewrite (bool_decide_eq_false_2 _ Hv), (bool_decide_eq_true_2 _ Hm). cbn.
    rewrite decide_False by tauto. by rewrite decide_True by done.
  - rewrite (bool_decide_eq_false_2 _ Hv), (bool_decide_eq_false_2 _ Hm). cbn.
    by rewrite !decide_False by tauto.
Qed.

(** The care rule once [val or ''] has been evaluated. *)
Lemma care_errors_spec r v m :
  or_empty (get r "Vaccination") = Ok v →
  or_empty (get r "Medication") = Ok m →
  care_errors r =
  Ok ((three_way (Str.strip (str v)) (Str.strip (str m))).1
      ++ concat (missing_finding r <$> OTHER_CARE_COLS),
      (three_way (Str.strip (str v)) (Str.strip (str m))).2).
Proof.
  intros Hv Hm. unfold care_errors. rewrite Hv, Hm. cbn [bind].
  rewrite three_way_spec.
  destruct (three_way _ _) as [errors note]. cbn [fst snd].
  by rewrite check_care_cols_spec, <- other_care_cols_filter.
Qed.

Lemma or_empty_plain v :
  plain v → ∃ w, or_empty v = Ok w ∧ Str.strip (str w) = trimmed v.
Proof.
  intros [->|[s ->]].
  - exists (VStr ""). split; reflexivity.
  - unfold or_empty. cbn. case_bool_decide as Hs; cbn.
    + subst s. exists (VStr ""). split; reflexivity.
    + exists (VStr s). split; reflexivity.
Qed.

(** On None and text the rule is the three-way check on the trimmed cells. *)
Lemma care_rule_plain_cells r :
  plain (get r "Vaccination") → plain (get r "Medication") →
  let outcome := three_way (trimmed (get r "Vaccination"))
                           (trimmed (get r "Medication")) in
  care_errors r
  = Ok (outcome.1 ++ concat (missing_finding r <$> OTHER_CARE_COLS), outcome.2).
Proof.
  intros Hv Hm.
  destruct (or_empty_plain _ Hv) as (v & Hov & <-).
  destruct (or_empty_plain _ Hm) as (m & Hom & <-).
  by apply care_errors_spec.
Qed.

Lemma care_message_not_missing_finding r cols :
  "Vaccination and Medication" ∉ cols →
  "Missing Vaccination and Medication" ∉ concat (missing_finding r <$> cols).
Proof.
  intros Hnot (col & Hcol & Hmsg)%elem_of_concat_fmap.
  apply elem_of_missing_finding in Hmsg as [Heq _].
  apply (missing_message_inj "Vaccination and Medication" col) in Heq.
  by subst col.
Qed.

(** C2, evaluated where the code leaves it: a care row whose Vaccination and
    Medication are both the missing value nan is trimmed to the empty string
    by the rule as worded, yet check_care_row reads both cells as the text
    "nan", so its error list has no "Missing Vaccination and Medication" and
    its note is empty. *)
Theorem care_rule_reads_nan_as_text (r : row) :
  get r "Vaccination" = VNaN → get r "Medication" = VNaN →
  trimmed (get r "Vaccination") = "" ∧ trimmed (get r "Medication") = ""
  ∧ ∃ errors, care_errors r = Ok (errors, "")
              ∧ ("Missing Vaccination and Medication" ∉ errors)
              ∧ check_care_row r = Ok (join_errors errors, "").
Proof.
  intros Hv Hm. rewrite Hv, Hm. split; [reflexivity|]. split; [reflexivity|].
  exists (concat (missing_finding r <$> OTHER_CARE_COLS)).
  assert (care_errors r
          = Ok (concat (missing_finding r <$> OTHER_CARE_COLS), "")) as Herr.
  { rewrite (care_errors_spec r VNaN VNaN) by (by rewrite ?Hv, ?Hm).
    reflexivity. }
  split; [exact Herr|]. split.
  - apply care_message_not_missing_finding.
    apply (bool_decide_unpack _). vm_compute. exact I.
  - unfold check_care_row. rewrite Herr. reflexivity.
Qed.

Lemma care_rule_reads_nan_as_text_witness :
  trimmed (get unfilled_care_row "Vaccination") = ""
  ∧ trimmed (get unfilled_care_row "Medication") = ""
  ∧ ∃ errors, care_errors unfilled_care_row = Ok (errors, "")
              ∧ ("Missing Vaccination and Medication" ∉ errors)
              ∧ check_care_row unfilled_care_row = Ok (join_errors errors, "").
Proof.
  apply (care_rule_reads_nan_as_text unfilled_care_row).
  - vm_compute. reflexivity.
  - vm_compute. reflexivity.
Defined.

(** ** Schema Normalizer *)

Lemma add_missing_lookup_cols (r : row) cols col :
  foldr (λ c acc, if r !! c is None then <[c := VNA]> acc else acc) r cols !! col
  = match r !! col with
    | Some v => Some v
    | None => if decide (col ∈ cols) then Some VNA else None
    end.
Proof.
  induction cols as [|c cols IH]; cbn [foldr].
  - destruct (r !! col) eqn:Hr; [done|]. by rewrite decide_False by apply not_elem_of_nil.
  - destruct (r !! c) eqn:Hc.
    + rewrite IH. destruct (r !! col) eqn:Hr; [done|].
      assert (c ≠ col) by congruence.
      destruct (decide (col ∈ cols)) as [Hin|Hin].
      * rewrite decide_True; [done|]. by right.
      * rewrite decide_False; [done|]. rewrite not_elem_of_cons. by split.
    + destruct (decide (c = col)) as [->|Hne].
      * rewrite lookup_insert_eq, Hc. rewrite decide_True; [done|]. by left.
      * rewrite lookup_insert_ne by done. rewrite IH.
        destruct (r !! col) eqn:Hr; [done|].
        destruct (decide (col ∈ cols)) as [Hin|Hin].
        -- rewrite decide_True; [done|]. by right.
        -- rewrite decide_False; [done|]. rewrite not_elem_of_cons. by split.
Qed.

(** A column the upload has keeps its cell; a catalogue column it lacks is
    created as pd.NA; any other column stays absent. *)
Lemma add_missing_columns_lookup (r : row) col :
  add_missing_columns r !! col
  = match r !! col with
    | Some v => Some v
    | None =>
      if decide (col ∈ REQUIRED_OPERATIONAL_COLS ++ REQUIRED_CARE_COLS)
      then Some VNA else None
    end.
Proof. apply add_missing_lookup_cols. Qed.

Lemma coerce_lookup_cols parse cols (acc : row) col :
  (∀ c, c ∈ cols → is_numeric_col c = true → c ≠ col) →
  foldl (λ acc c, if is_numeric_col c then alter (to_numeric parse) c acc else acc)
        acc cols !! col = acc !! col.
Proof.
  revert acc. induction cols as [|c cols IH]; intros acc Hcols; [done|].
  cbn [foldl]. rewrite IH.
  - destruct (is_numeric_col c) eqn:Hnum; [|done].
    apply lookup_alter_ne. apply Hcols; [by left|done].
  - intros c' Hc'. apply Hcols. by right.
Qed.

(** Only the columns of RequiredOperational are coerced. *)
Lemma coerce_numeric_columns_lookup_other parse (r : row) col :
  col ∉ REQUIRED_OPERATIONAL_COLS →
  coerce_numeric_columns parse r !! col = r !! col.
Proof.
  intros Hcol. apply coerce_lookup_cols. intros c Hc _ ->. done.
Qed.

Lemma care_cols_not_operational :
  Forall (λ col, col ∉ REQUIRED_OPERATIONAL_COLS) REQUIRED_CARE_COLS.
Proof. apply (bool_decide_unpack _). vm_compute. exact I. Qed.

Lemma normalized_absent_care_column parse (r : row) col :
  col ∈ REQUIRED_CARE_COLS → r !! col = None →
  get (coerce_numeric_columns parse (add_missing_columns r)) col = VNA.
Proof.
  intros Hcol Hr. unfold get.
  rewrite coerce_numeric_columns_lookup_other.
  - rewrite add_missing_columns_lookup, Hr.
    rewrite decide_True; [done|]. apply elem_of_app. by right.
  - clear Hr. revert col Hcol. apply Forall_forall, care_cols_not_operational.
Qed.


(** ** analyze *)

Lemma analyze_normalized_Ok df resp :
  analyze_normalized df = Ok resp →
  operational_data resp
  = operational_records (filter (λ r, is_operational_row r = true) df)
  ∧ care_records (filter (λ r, is_operational_row r ≠ true) df)
    = Ok (care_data resp).
Proof.
  unfold analyze_normalized.
  destruct (care_records _) as [care|]; [|done].
  cbn [bind]. by intros <-%Ok_inj.
Qed.

Lemma truth_raises v e : truth v = Raise e → e = TypeError.
Proof. destruct v; cbn; congruence. Qed.

Lemma or_empty_raises v e : or_empty v = Raise e → e = TypeError.
Proof.
  unfold or_empty. destruct (truth v) eqn:Ht; cbn; [done|].
  intros [= <-]. by eapply truth_raises.
Qed.

(** TypeError is the only exception of check_care_row. *)
Lemma check_care_row_raises r e : check_care_row r = Raise e → e = TypeError.
Proof.
  unfold check_care_row, care_errors.
  destruct (or_empty (get r "Vaccination")) as [v|e1] eqn:Hv; cbn [bind].
  - destruct (or_empty (get r "Medication")) as [m|e2] eqn:Hm; cbn [bind].
    + by destruct (if _ : bool then _ else _).
    + intros [= <-]. by eapply or_empty_raises.
  - intros [= <-]. by eapply or_empty_raises.
Qed.

Lemma check_care_row_NA r :
  get r "Vaccination" = VNA ∨ get r "Medication" = VNA →
  check_care_row r = Raise TypeError.
Proof.
  intros Hna. unfold check_care_row, care_errors.
  destruct (or_empty (get r "Vaccination")) as [v|e1] eqn:Hv; cbn [bind].
  - destruct Hna as [Hna|Hna]; [by rewrite Hna in Hv|].
    by rewrite Hna.
  - f_equal. by eapply or_empty_raises.
Qed.

Lemma check_care_row_total r :
  get r "Vaccination" ≠ VNA → get r "Medication" ≠ VNA →
  ∃ out, check_care_row r = Ok out.
Proof.
  intros Hv Hm.
  assert (∀ v, v ≠ VNA → ∃ w, or_empty v = Ok w) as Hor.
  { intros [] ?; try done; cbn; eauto. }
  destruct (Hor _ Hv) as [v Hov]. destruct (Hor _ Hm) as [m Hom].
  unfold check_care_row. rewrite (care_errors_spec r v m Hov Hom).
  cbn [bind]. eauto.
Qed.

(** The engine returns a response on every frame that has a care row and
    whose care rows hold no pd.NA in Vaccination and Medication. *)
Lemma analyze_normalized_returns df :
  (∃ r, r ∈ df ∧ is_operational_row r ≠ true) →
  (∀ r, r ∈ df → is_operational_row r ≠ true →
        get r "Vaccination" ≠ VNA ∧ get r "Medication" ≠ VNA) →
  ∃ resp, analyze_normalized df = Ok resp.
Proof.
  intros (r0 & Hr0 & Hcare0) Hclean.
  unfold analyze_normalized, care_records.
  destruct (mapM_total check_care_row
              (filter (λ r, is_operational_row r ≠ true) df)) as [checked ->].
  { intros r [Hcare Hr]%list_elem_of_filter.
    destruct (Hclean r Hr Hcare). by apply check_care_row_total. }
  cbn [bind].
  destruct (filter (λ r, is_operational_row r ≠ true) df) eqn:Hf.
  - assert (r0 ∈ filter (λ r, is_operational_row r ≠ true) df) as Hin
      by (by apply list_elem_of_filter).
    rewrite Hf in Hin. by apply elem_of_nil in Hin.
  - cbn [bind]. eauto.
Qed.

(** C1, evaluated where the code leaves it: when the upload lacks the
    Vaccination or the Medication column, normalisation creates it as pd.NA,
    and as soon as the frame has a care row the engine stops with TypeError
    instead of returning a result. *)
Theorem analyze_raises_on_absent_care_column parse (df : list row) (r : row) :
  r ∈ df →
  r !! "Vaccination" = None ∨ r !! "Medication" = None →
  is_operational_row (coerce_numeric_columns parse (add_missing_columns r))
  = false →
  analyze parse df = Raise TypeError.
Proof.
  intros Hr Hcol Hcare. unfold analyze.
  set (nr := coerce_numeric_columns parse (add_missing_columns r)) in *.
  assert (nr ∈ normalize parse df) as Hnr.
  { unfold normalize. apply list_elem_of_fmap. by exists r. }
  unfold analyze_normalized.
  assert (care_records
            (filter (λ r, is_operational_row r ≠ true) (normalize parse df))
          = Raise TypeError) as ->; [|done].
  unfold care_records.
  rewrite (mapM_raise check_care_row _ nr TypeError); [done| | |].
  - apply list_elem_of_filter. split; [|done]. by rewrite Hcare.
  - apply check_care_row_NA. destruct Hcol as [Hcol|Hcol]; [left|right];
      apply normalized_absent_care_column; try done.
    + apply (bool_decide_unpack _). vm_compute. exact I.
    + apply (bool_decide_unpack _). vm_compute. exact I.
  - apply check_care_row_raises.
Qed.

Lemma analyze_raises_on_absent_care_column_witness :
  analyze parse_integer [flock_date_only_row] = Raise TypeError.
Proof.
  apply (analyze_raises_on_absent_care_column parse_integer
           [flock_date_only_row] flock_date_only_row).
  - apply (bool_decide_unpack _). vm_compute. exact I.
  - left. vm_compute. reflexivity.
  - vm_compute. reflexivity.
Defined.

(** ** Duplicate Detector *)

Lemma filter_nonempty_iff {A} (P : A → Prop) `{∀ x, Decision (P x)} (l : list A) :
  1 ≤ length (filter P l) ↔ ∃ j y, l !! j = Some y ∧ P y.
Proof.
  split.
  - destruct (filter P l) as [|y ys] eqn:Hf; cbn; [lia|]. intros _.
    assert (y ∈ filter P l) as [Hy Hin]%list_elem_of_filter
      by (rewrite Hf; by left).
    apply list_elem_of_lookup in Hin as [j Hj]. eauto.
  - intros (j & y & Hj & Hy).
    assert (y ∈ filter P l) as Hin.
    { apply list_elem_of_filter. split; [done|].
      apply list_elem_of_lookup. eauto. }
    destruct (filter P l); [by apply elem_of_nil in Hin|]. cbn. lia.
Qed.

(** Another position holds an element with the property exactly when the
    property occurs at least twice. *)
Lemma other_occurrence_iff_twice {A} (P : A → Prop) `{∀ x, Decision (P x)}
    (l : list A) i x :
  l !! i = Some x → P x →
  (∃ j y, j ≠ i ∧ l !! j = Some y ∧ P y) ↔ 2 ≤ length (filter P l).
Proof.
  revert i. induction l as [|a l IH]; intros i Hi Hx; [done|].
  destruct i as [|i]; cbn in Hi.
  - injection Hi as ->. rewrite filter_cons_True by done. cbn [length].
    rewrite <- Nat.succ_le_mono, filter_nonempty_iff. split.
    + intros ([|j] & y & Hne & Hj & Hy); [done|]. eauto.
    + intros (j & y & Hj & Hy). exists (S j), y. done.
  - destruct (decide (P a)) as [Ha|Ha].
    + rewrite filter_cons_True by done. cbn [length].
      rewrite <- Nat.succ_le_mono, filter_nonempty_iff. split; [eauto|].
      intros _. exists 0, a. done.
    + rewrite filter_cons_False by done. rewrite <- (IH i Hi Hx). split.
      * intros ([|j] & y & Hne & Hj & Hy).
        -- cbn in Hj. by injection Hj as ->.
        -- exists j, y. split; [congruence|done].
      * intros (j & y & Hne & Hj & Hy). exists (S j), y.
        split; [congruence|done].
Qed.

Lemma label_eq_iff v w : label v = label w ↔ same_cell v w.
Proof.
  unfold label, same_cell.
  destruct (isna v) eqn:Hv, (isna w) eqn:Hw; split; try done.
  - by left.
  - by intros [[_ ?]|(? & _)].
  - by intros [[? _]|(_ & ? & _)].
  - intros [= Heq]. right. split; [done|]. split; [done|].
    destruct v, w; simplify_eq/=; try (by left); right; split; eauto.
  - intros [[? _]|(_ & _ & [->|[[z Hz] Hnum]])]; [done..|].
    rewrite Hz in Hnum. destruct v, w; simplify_eq/=; done.
Qed.

Lemma operational_key_eq_iff r r' :
  operational_key r = operational_key r' ↔ same_flock_date r r'.
Proof.
  unfold operational_key, same_flock_date.
  rewrite <- !label_eq_iff. split; [by intros [= -> ->]|by intros [-> ->]].
Qed.

(** The duplicate flag of the row at position [i] of a frame grouped by
    [key]. *)
Lemma duplicate_flag_spec {K} `{EqDecision K} (key : row → K) (df : list row) i r :
  df !! i = Some r →
  ∃ dup, duplicate_error (key <$> df) !! i = Some dup
    ∧ (dup = true ↔ ∃ j r', j ≠ i ∧ df !! j = Some r' ∧ key r' = key r)
    ∧ (dup = true ↔ 2 ≤ length (filter (λ r', key r' = key r) df)).
Proof.
  intros Hi.
  destruct (duplicate_error_lookup (key <$> df) i (key r))
    as (dup & Hdup & Hiff); [by rewrite list_lookup_fmap, Hi|].
  assert (dup = true ↔ ∃ j r', j ≠ i ∧ df !! j = Some r' ∧ key r' = key r)
    as Hother.
  { rewrite Hiff. split.
    - intros (j & Hne & Hj). rewrite list_lookup_fmap in Hj.
      destruct (df !! j) as [r'|] eqn:Hr'; [|done].
      injection Hj as Hj. eauto.
    - intros (j & r' & Hne & Hj & Hkey). exists j. split; [done|].
      by rewrite list_lookup_fmap, Hj, <- Hkey. }
  exists dup. split; [done|]. split; [done|].
  rewrite Hother.
  apply (other_occurrence_iff_twice (λ r', key r' = key r) df i r Hi eq_refl).
Qed.

(** C9.  In the operational table the flag of a row is true exactly when
    another row of the table has the same (Flock, Date) pair, that is, when
    the pair occurs at least twice; a missing Flock or Date groups with the
    other missing ones and with nothing else; every row of such a group is
    flagged, the first occurrence included; a table without rows has no flag
    at all. *)
Theorem operational_duplicates :
  (∀ (df : list row) i r,
     df !! i = Some r →
     ∃ rec dup,
       operational_records df !! i = Some rec
       ∧ rec !! "Duplicate Error" = Some (CBool dup)
       ∧ (dup = true ↔
          ∃ j r', j ≠ i ∧ df !! j = Some r' ∧ same_flock_date r' r)
       ∧ (dup = true ↔
          2 ≤ length (filter (λ r', operational_key r' = operational_key r) df)))
  ∧ (∀ r r' : row,
       operational_key r' = operational_key r ↔
       same_cell (get r' "Flock") (get r "Flock")
       ∧ same_cell (get r' "Date") (get r "Date"))
  ∧ duplicate_error (operational_key <$> ([] : list row)) = []
  ∧ operational_records [] = [].
Proof.
  split; [|split; [|split; reflexivity]].
  - intros df i r Hi.
    destruct (operational_records_lookup df i r Hi) as (dup & Hdup & Hrec).
    destruct (duplicate_flag_spec operational_key df i r Hi)
      as (dup' & Hdup' & Hother & Htwice).
    assert (dup' = dup) as -> by congruence.
    exists (annotated_operational r dup), dup. split; [exact Hrec|].
    split; [apply annotated_operational_fields|]. split; [|exact Htwice].
    rewrite Hother. by setoid_rewrite operational_key_eq_iff.
  - intros r r'. apply operational_key_eq_iff.
Qed.

Lemma operational_duplicates_witness :
  ∃ rec,
    operational_records [good_operational_row; good_operational_row] !! 0
    = Some rec
    ∧ rec !! "Duplicate Error" = Some (CBool true).
Proof.
  destruct operational_duplicates as [Hflag _].
  destruct (Hflag [good_operational_row; good_operational_row] 0
              good_operational_row eq_refl)
    as (rec & dup & Hrec & Hdup & _ & Htwice).
  assert (dup = true) as ->.
  { apply Htwice. apply (bool_decide_unpack _). vm_compute. exact I. }
  exists rec. split; [exact Hrec|exact Hdup].
Defined.

Lemma care_records_returns (df : list row) :
  df ≠ [] →
  (∀ r, r ∈ df → get r "Vaccination" ≠ VNA ∧ get r "Medication" ≠ VNA) →
  ∃ recs, care_records df = Ok recs.
Proof.
  intros Hne Hclean. unfold care_records.
  destruct (mapM_total check_care_row df) as [checked ->].
  { intros r Hr. destruct (Hclean r Hr). by apply check_care_row_total. }
  cbn [bind]. destruct df; [done|]. eauto.
Qed.





(** ** Result Assembler *)

(** On a flagged row the suffix follows the text form of the error. *)
Lemma flagged_error_true suffix e :
  flagged_error suffix true e = Some (astype_str e +:+ suffix).
Proof. reflexivity. Qed.

Lemma has_text_iff e : has_text e = true ↔ ∃ s, e = Some s ∧ s ≠ "".
Proof.
  destruct e as [s|]; cbn.
  - rewrite negb_true_iff, bool_decide_eq_false. split; [eauto|].
    by intros (s' & [= <-] & ?).
  - split; [done|]. by intros (s & [=] & _).
Qed.

(** has_error against the final Error Details and the flag of one row. *)
Lemma has_error_spec suffix (dup : bool) e :
  (if dup then true else has_text e) = true ↔
  (∃ s, flagged_error suffix dup e = Some s ∧ s ≠ "") ∨ dup = true.
Proof.
  destruct dup; cbn.
  - split; [by right|done].
  - rewrite has_text_iff. split; [by left|]. by intros [?|?].
Qed.

(** On every flagged row the suffix is appended to the text form of the
    outcome of the check. *)
Lemma operational_suffix_appended (df : list row) i r :
  df !! i = Some r →
  (∃ j r', j ≠ i ∧ df !! j = Some r'
           ∧ operational_key r' = operational_key r) →
  ∃ rec, operational_records df !! i = Some rec
         ∧ rec !! "Duplicate Error" = Some (CBool true)
         ∧ rec !! "Error Details"
           = Some (CVal (VStr (astype_str (check_operational_row r)
                               +:+ OPERATIONAL_SUFFIX))).
Proof.
  intros Hi Hother.
  destruct (operational_records_lookup df i r Hi) as (dup & Hdup & Hrec).
  destruct (duplicate_flag_spec operational_key df i r Hi)
    as (dup' & Hdup' & Hiff & _).
  assert (dup' = dup) as -> by congruence.
  apply Hiff in Hother as ->.
  destruct (annotated_operational_fields r true) as (Hd & He & _).
  exists (annotated_operational r true).
  split; [exact Hrec|]. split; [exact Hd|exact He].
Qed.

Lemma care_suffix_appended (df : list row) recs i r e note :
  care_records df = Ok recs → df !! i = Some r →
  check_care_row r = Ok (e, note) →
  (∃ j r', j ≠ i ∧ df !! j = Some r' ∧ care_key r' = care_key r) →
  ∃ rec, recs !! i = Some rec
         ∧ rec !! "Duplicate Error" = Some (CBool true)
         ∧ rec !! "Error Details"
           = Some (CVal (VStr (astype_str e +:+ CARE_SUFFIX))).
Proof.
  intros Hrecs Hi Hcheck Hother.
  destruct (care_records_lookup df recs i r Hrecs Hi)
    as (dup & e' & note' & Hdup & Hcheck' & Hrec).
  destruct (duplicate_flag_spec care_key df i r Hi)
    as (dup' & Hdup' & Hiff & _).
  assert (dup' = dup) as -> by congruence.
  apply Hiff in Hother as ->.
  assert (e' = e) as -> by congruence.
  destruct (annotated_care_fields r true e note') as (_ & Hd & He & _).
  exists (annotated_care r true e note').
  split; [exact Hrec|]. split; [exact Hd|exact He].
Qed.

(** C4, evaluated where the code leaves it: on a flagged row the suffix is
    appended to the text form of Error Details, and the text form of an
    absent Error Details is "None"; the Error Details of a flagged row
    without any finding is therefore "None; Duplicate Flock/Date" (for a
    care row "None; Duplicate Flock/Date/Vaccination/Medication"), which does
    not start with "; ". *)
Theorem duplicate_suffix_follows_None :
  (∀ (df : list row) i r,
     df !! i = Some r → check_operational_row r = None →
     (∃ j r', j ≠ i ∧ df !! j = Some r'
              ∧ operational_key r' = operational_key r) →
     ∃ rec, operational_records df !! i = Some rec
            ∧ rec !! "Duplicate Error" = Some (CBool true)
            ∧ rec !! "Error Details"
              = Some (CVal (VStr "None; Duplicate Flock/Date")))
  ∧ (∀ (df : list row) recs i r note,
       care_records df = Ok recs → df !! i = Some r →
       check_care_row r = Ok (None, note) →
       (∃ j r', j ≠ i ∧ df !! j = Some r' ∧ care_key r' = care_key r) →
       ∃ rec, recs !! i = Some rec
              ∧ rec !! "Duplicate Error" = Some (CBool true)
              ∧ rec !! "Error Details"
                = Some (CVal (VStr
                    "None; Duplicate Flock/Date/Vaccination/Medication"))).
Proof.
  split.
  - intros df i r Hi Hcheck Hother.
    destruct (operational_suffix_appended df i r Hi Hother)
      as (rec & Hrec & Hd & He).
    rewrite Hcheck in He. by exists rec.
  - intros df recs i r note Hrecs Hi Hcheck Hother.
    destruct (care_suffix_appended df recs i r None note Hrecs Hi Hcheck Hother)
      as (rec & Hrec & Hd & He).
    by exists rec.
Qed.

Lemma duplicate_suffix_follows_None_witness :
  ∃ rec,
    operational_records [good_operational_row; good_operational_row] !! 0
    = Some rec
    ∧ rec !! "Duplicate Error" = Some (CBool true)
    ∧ rec !! "Error Details" = Some (CVal (VStr "None; Duplicate Flock/Date")).
Proof.
  destruct duplicate_suffix_follows_None as [Hoperational _].
  apply (Hoperational [good_operational_row; good_operational_row] 0
           good_operational_row).
  - reflexivity.
  - vm_compute. reflexivity.
  - exists 1, good_operational_row. split; [discriminate|].
    split; reflexivity.
Defined.

(** The engine returns a response on the sample frame. *)
Lemma mixed_frame_analysed :
  ∃ resp, analyze parse_integer mixed_frame = Ok resp.
Proof. apply is_ok_true. vm_compute. reflexivity. Qed.

(** C5.  In every record of either output table has_error is true exactly
    when Error Details is a non-empty text or Duplicate Error is true. *)
Theorem has_error_iff_details_or_duplicate parse (df : list row) resp :
  analyze parse df = Ok resp →
  ∀ rec, rec ∈ operational_data resp ++ care_data resp →
    ∃ (has_error dup : bool) (details : option string),
      rec !! "has_error" = Some (CBool has_error)
      ∧ rec !! "Duplicate Error" = Some (CBool dup)
      ∧ rec !! "Error Details" = Some (error_cell details)
      ∧ (has_error = true ↔
         (∃ s, details = Some s ∧ s ≠ "") ∨ dup = true).
Proof.
  intros (Hop & Hcare)%analyze_normalized_Ok rec [Hrec|Hrec]%elem_of_app.
  - rewrite Hop in Hrec.
    apply operational_records_elem in Hrec as (i & r & dup & _ & _ & ->).
    destruct (annotated_operational_fields r dup) as (Hd & He & Hh).
    eexists _, dup, _. split; [exact Hh|]. split; [exact Hd|].
    split; [exact He|]. apply has_error_spec.
  - apply (care_records_elem _ _ _ Hcare) in Hrec
      as (i & r & dup & e & note & _ & _ & _ & ->).
    destruct (annotated_care_fields r dup e note) as (_ & Hd & He & _ & Hh).
    eexists _, dup, _. split; [exact Hh|]. split; [exact Hd|].
    split; [exact He|]. apply has_error_spec.
Qed.

Lemma has_error_iff_details_or_duplicate_witness :
  ∃ resp,
    analyze parse_integer mixed_frame = Ok resp
    ∧ ∀ rec, rec ∈ operational_data resp ++ care_data resp →
        ∃ (has_error dup : bool) (details : option string),
          rec !! "has_error" = Some (CBool has_error)
          ∧ rec !! "Duplicate Error" = Some (CBool dup)
          ∧ rec !! "Error Details" = Some (error_cell details)
          ∧ (has_error = true ↔
             (∃ s, details = Some s ∧ s ≠ "") ∨ dup = true).
Proof.
  destruct mixed_frame_analysed as [resp Hrun].
  exists resp. split; [exact Hrun|].
  exact (has_error_iff_details_or_duplicate parse_integer mixed_frame resp Hrun).
Defined.

(** ** Partition of the rows *)





(** ** The care_key field *)



Lemma length_care_key r : length (care_key r) = 10.
Proof. reflexivity. Qed.



(** ** Sample runs of analyze *)

(** Two identical valid operational rows and a care row. *)
Example repeated_operational_frame_details :
  column "Error Details"
    <$> returned (analyze parse_integer repeated_operational_frame)
  = Some ([ Some (CVal (VStr "None; Duplicate Flock/Date"));
            Some (CVal (VStr "None; Duplicate Flock/Date")) ],
          [ Some (CVal VNone) ]).
Proof. vm_compute. reflexivity. Qed.

(** A valid operational row and two identical valid care rows. *)
Example repeated_care_frame_details :
  column "Error Details"
    <$> returned (analyze parse_integer repeated_care_frame)
  = Some ([ Some (CVal VNone) ],
          [ Some (CVal (VStr
              "None; Duplicate Flock/Date/Vaccination/Medication"));
            Some (CVal (VStr
              "None; Duplicate Flock/Date/Vaccination/Medication")) ]).
Proof. vm_compute. reflexivity. Qed.

(** A care row with empty Vaccination and Medication cells next to an
    operational row: no "Missing Vaccination and Medication". *)
Example unfilled_care_row_details :
  column "Error Details"
    <$> returned (analyze parse_integer [good_operational_row; unfilled_care_row])
  = Some ([ Some (CVal VNone) ],
          [ Some (CVal (VStr
              ("Missing Creation User ID; Missing Vacc Method; "
               +:+ "Missing Vacc Type; Missing VaccinevDoze; "
               +:+ "Missing Medication Batch; Missing Concentration %; "
               +:+ "Missing Record Source Type; Missing Medication Dose; "
               +:+ "Missing Medication Exp Date; Missing Doctor Name; "
               +:+ "Missing Doses Unit; Missing Produced PS_Nest_HE; "
               +:+ "Missing Vaccine Name"))) ]).
Proof. vm_compute. reflexivity. Qed.

(** An upload of operational rows only, and an upload without rows. *)
Example operational_only_frame_raises :
  analyze parse_integer [good_operational_row] = Raise KeyError.
Proof. vm_compute. reflexivity. Qed.

Example empty_frame_raises : analyze parse_integer [] = Raise KeyError.
Proof. reflexivity. Qed.

(** The sample frame: flags and has_error of its two tables. *)
Example mixed_frame_flags :
  column "has_error" <$> returned (analyze parse_integer mixed_frame)
  = Some ([ Some (CBool true); Some (CBool true) ],
          [ Some (CBool false); Some (CBool true) ]).
Proof. vm_compute. reflexivity. Qed.

(** A row whose only violation is the negative feed consumption. *)
Example negative_feed_frame_details :
  (λ resp, (column "Error Details" resp).1 ++ (column "has_error" resp).1)
    <$> returned (analyze parse_integer [negative_feed_row; good_care_row])
  = Some [ Some (CVal (VStr "Negative value in Animal Feed Consumed"));
           Some (CBool true) ].
Proof. vm_compute. reflexivity. Qed.

(** * Further properties of the code *)

(** ** clean_nan_inf *)

Lemma clean_cell_finite c : ¬ non_finite (clean_cell c).
Proof.
  intros [Hc|[negative Hc]]; destruct c as [[]| |]; discriminate.
Qed.

Lemma clean_cell_id c : ¬ non_finite c → clean_cell c = c.
Proof.
  intros Hc. destruct c as [[| | |negative| | |]| |]; try reflexivity.
  - destruct Hc. by left.
  - destruct Hc. right. by exists negative.
Qed.

Lemma clean_cell_non_finite c : non_finite c → clean_cell c = CVal VNone.
Proof. by intros [->|[negative ->]]. Qed.

(** X1.  clean_nan_inf keeps the fields of a record, rewrites exactly the
    cells holding nan, inf or -inf to None and leaves every other cell as it
    is; no such cell is left in its result, and cleaning twice is cleaning
    once. *)
Theorem clean_nan_inf_removes_non_finite (rec : record) :
  dom (clean_nan_inf rec) = dom rec
  ∧ (∀ col c, clean_nan_inf rec !! col = Some c → ¬ non_finite c)
  ∧ (∀ col c, rec !! col = Some c → non_finite c →
              clean_nan_inf rec !! col = Some (CVal VNone))
  ∧ (∀ col c, rec !! col = Some c → ¬ non_finite c →
              clean_nan_inf rec !! col = Some c)
  ∧ clean_nan_inf (clean_nan_inf rec) = clean_nan_inf rec.
Proof.
  unfold clean_nan_inf. split_and!.
  - apply dom_fmap_L.
  - intros col c. rewrite lookup_fmap.
    destruct (rec !! col) as [c0|]; [|done]. intros [= <-].
    apply clean_cell_finite.
  - intros col c Hc Hnf. rewrite lookup_fmap, Hc. cbn.
    by rewrite clean_cell_non_finite.
  - intros col c Hc Hf. rewrite lookup_fmap, Hc. cbn.
    by rewrite clean_cell_id.
  - apply map_eq. intros col. rewrite !lookup_fmap.
    destruct (rec !! col) as [c|]; [|done]. cbn. f_equal.
    apply clean_cell_id, clean_cell_finite.
Qed.

Lemma clean_nan_inf_removes_non_finite_witness :
  clean_nan_inf {[ "Animal Mortality" := CVal VNaN;
                   "Flock" := CVal (VStr "A1") ]} !! "Animal Mortality"
  = Some (CVal VNone)
  ∧ clean_nan_inf {[ "Animal Mortality" := CVal VNaN;
                     "Flock" := CVal (VStr "A1") ]} !! "Flock"
    = Some (CVal (VStr "A1")).
Proof.
  destruct (clean_nan_inf_removes_non_finite
              {[ "Animal Mortality" := CVal VNaN; "Flock" := CVal (VStr "A1") ]})
    as (_ & _ & Hnan & Hkeep & _).
  split.
  - apply (Hnan _ (CVal VNaN)); [vm_compute; reflexivity|]. by left.
  - apply Hkeep; [vm_compute; reflexivity|].
    intros [Hc|[negative Hc]]; discriminate.
Defined.

(** X2.  No record that analyze returns holds nan, inf or -inf in any
    field. *)
Theorem analyze_returns_no_non_finite parse (df : list row) resp :
  analyze parse df = Ok resp →
  ∀ rec, rec ∈ operational_data resp ++ care_data resp →
    ∀ col c, rec !! col = Some c → ¬ non_finite c.
Proof.
  intros (Hop & Hcare)%analyze_normalized_Ok rec Hrec col c Hc.
  assert (∃ rec0, rec = clean_nan_inf rec0) as [rec0 ->].
  { apply elem_of_app in Hrec as [Hrec|Hrec].
    - rewrite Hop in Hrec.
      apply operational_records_elem in Hrec as (i & r & dup & _ & _ & ->).
      unfold annotated_operational. eauto.
    - apply (care_records_elem _ _ _ Hcare) in Hrec
        as (i & r & dup & e & note & _ & _ & _ & ->).
      unfold annotated_care. eauto. }
  unfold clean_nan_inf in Hc. rewrite lookup_fmap in Hc.
  destruct (rec0 !! col) as [c0|]; [|done]. injection Hc as <-.
  apply clean_cell_finite.
Qed.

Lemma analyze_returns_no_non_finite_witness :
  ∃ resp,
    analyze parse_integer mixed_frame = Ok resp
    ∧ ∀ rec, rec ∈ operational_data resp ++ care_data resp →
        ∀ col c, rec !! col = Some c → ¬ non_finite c.
Proof.
  destruct mixed_frame_analysed as [resp Hrun].
  exists resp. split; [exact Hrun|].
  exact (analyze_returns_no_non_finite parse_integer mixed_frame resp Hrun).
Defined.

(** ** The Schema Normalizer, column by column *)

Lemma dom_add_missing_columns (r : row) :
  dom (add_missing_columns r) = dom r ∪ list_to_set CATALOGUE.
Proof.
  apply set_eq. intros col.
  rewrite elem_of_union, !elem_of_dom, elem_of_list_to_set.
  rewrite add_missing_columns_lookup. fold CATALOGUE.
  destruct (r !! col) as [v|] eqn:Hr.
  - split; [by left|eauto].
  - destruct (decide (col ∈ CATALOGUE)) as [Hin|Hin].
    + split; [by right|eauto].
    + split; [by intros [? [=]]|]. by intros [[? [=]]|?].
Qed.

(** X3.  After the missing columns are added, a row has the columns it had
    and every catalogue column; the cells it had are untouched, a catalogue
    column it lacked holds pd.NA, and adding the missing columns again changes
    nothing. *)
Theorem add_missing_columns_completes (r : row) :
  dom (add_missing_columns r) = dom r ∪ list_to_set CATALOGUE
  ∧ (∀ col v, r !! col = Some v → add_missing_columns r !! col = Some v)
  ∧ (∀ col, col ∈ CATALOGUE → r !! col = None →
            add_missing_columns r !! col = Some VNA)
  ∧ add_missing_columns (add_missing_columns r) = add_missing_columns r.
Proof.
  split_and!.
  - apply dom_add_missing_columns.
  - intros col v Hr. by rewrite add_missing_columns_lookup, Hr.
  - intros col Hin Hr. rewrite add_missing_columns_lookup, Hr.
    fold CATALOGUE. by rewrite decide_True.
  - apply map_eq. intros col. rewrite (add_missing_columns_lookup _ col).
    destruct (add_missing_columns r !! col) as [v|] eqn:Hr; [done|].
    rewrite add_missing_columns_lookup in Hr.
    destruct (r !! col); [done|].
    by destruct (decide (col ∈ REQUIRED_OPERATIONAL_COLS ++ REQUIRED_CARE_COLS)).
Qed.

Lemma numeric_cols_filter :
  NUMERIC_COLS = filter (λ col, is_numeric_col col = true) REQUIRED_OPERATIONAL_COLS.
Proof. vm_compute. reflexivity. Qed.

Lemma elem_of_numeric_cols col :
  col ∈ NUMERIC_COLS ↔
  col ∈ REQUIRED_OPERATIONAL_COLS ∧ is_numeric_col col = true.
Proof. rewrite numeric_cols_filter, list_elem_of_filter. tauto. Qed.

Lemma nodup_required_operational : NoDup REQUIRED_OPERATIONAL_COLS.
Proof. apply (bool_decide_unpack _). vm_compute. exact I. Qed.

Lemma coerce_lookup_numeric parse cols (acc : row) col :
  NoDup cols → col ∈ cols → is_numeric_col col = true →
  foldl (λ acc c, if is_numeric_col c then alter (to_numeric parse) c acc else acc)
        acc cols !! col = to_numeric parse <$> acc !! col.
Proof.
  intros Hnd. revert acc. induction Hnd as [|c cols Hc Hnd IH]; intros acc Hin Hnum.
  - by apply elem_of_nil in Hin.
  - cbn [foldl]. apply elem_of_cons in Hin as [->|Hin].
    + rewrite coerce_lookup_cols by (intros c' Hc' _ ->; done).
      rewrite Hnum. by rewrite lookup_alter_eq.
    + rewrite IH by done.
      destruct (is_numeric_col c); [|done].
      rewrite lookup_alter_ne; [done|]. by intros ->.
Qed.

(** A normalised row, one column at a time. *)
Lemma normalize_row_lookup parse (r : row) col :
  normalize_row parse r !! col
  = if decide (col ∈ NUMERIC_COLS)
    then to_numeric parse <$> add_missing_columns r !! col
    else add_missing_columns r !! col.
Proof.
  unfold normalize_row, coerce_numeric_columns.
  destruct (decide (col ∈ NUMERIC_COLS)) as [Hin|Hin].
  - apply elem_of_numeric_cols in Hin as [Hin Hnum].
    by apply coerce_lookup_numeric; [apply nodup_required_operational|..].
  - apply coerce_lookup_cols. intros c Hc Hnum ->.
    apply Hin, elem_of_numeric_cols. done.
Qed.

Lemma numeric_cols_in_catalogue col : col ∈ NUMERIC_COLS → col ∈ CATALOGUE.
Proof.
  intros [Hin _]%elem_of_numeric_cols. apply elem_of_app. by left.
Qed.

Lemma to_numeric_is_number parse v :
  numeric_parser parse → is_int_or_float (to_numeric parse v) = true.
Proof.
  intros Hparse. destruct v as [| | |negative|z|z|s]; try reflexivity.
  cbn. destruct (parse s) as [v|] eqn:Hs; [|reflexivity]. by eapply Hparse.
Qed.

Lemma to_numeric_of_number parse v :
  is_int_or_float v = true → to_numeric parse v = v.
Proof. by destruct v. Qed.


Lemma parse_integer_numeric : numeric_parser parse_integer.
Proof.
  intros s v. unfold parse_integer.
  destruct (Str.strip s) as [|c t]; [done|].
  destruct (decide (c = "-"%char)) as [->|Hc].
  - case_bool_decide; [done|].
    destruct (digits_value t 0); [|done]. by intros [= <-].
  - assert (VNum <$> digits_value (String c t) 0 = Some v →
            is_int_or_float v = true) as Hdigits.
    { destruct (digits_value (String c t) 0); [|done]. by intros [= <-]. }
    destruct c as [[] [] [] [] [] [] [] []]; try exact Hdigits. done.
Qed.


Lemma to_numeric_idempotent parse v :
  numeric_parser parse →
  to_numeric parse (to_numeric parse v) = to_numeric parse v.
Proof.
  intros Hparse. by apply to_numeric_of_number, to_numeric_is_number.
Qed.

Lemma normalize_cons parse (r : row) (df : list row) :
  normalize parse (r :: df) = normalize_row parse r :: normalize parse df.
Proof. reflexivity. Qed.

Lemma normalize_row_idempotent parse (r : row) :
  numeric_parser parse →
  normalize_row parse (normalize_row parse r) = normalize_row parse r.
Proof.
  intros Hparse. apply map_eq. intros col.
  rewrite (normalize_row_lookup parse (normalize_row _ _)).
  rewrite add_missing_columns_lookup. fold CATALOGUE.
  rewrite (normalize_row_lookup parse r col).
  destruct (decide (col ∈ NUMERIC_COLS)) as [Hin|Hin].
  - destruct (add_missing_columns r !! col) as [v|] eqn:Hv; cbn [fmap option_fmap option_map].
    + by rewrite to_numeric_idempotent.
    + exfalso. rewrite add_missing_columns_lookup in Hv. fold CATALOGUE in Hv.
      destruct (r !! col); [done|].
      by rewrite decide_True in Hv by (by apply numeric_cols_in_catalogue).
  - destruct (add_missing_columns r !! col) as [v|] eqn:Hv; [done|].
    rewrite add_missing_columns_lookup in Hv. fold CATALOGUE in Hv.
    destruct (r !! col); [done|].
    by destruct (decide (col ∈ CATALOGUE)).
Qed.

(** X5.  With a text parser that yields numbers only, normalising a
    normalised frame changes nothing. *)
Theorem normalize_idempotent parse (df : list row) :
  numeric_parser parse →
  normalize parse (normalize parse df) = normalize parse df.
Proof.
  intros Hparse. induction df as [|r df IH]; [reflexivity|].
  rewrite !normalize_cons, IH. f_equal. by apply normalize_row_idempotent.
Qed.

Lemma normalize_idempotent_witness :
  normalize parse_integer (normalize parse_integer mixed_frame)
  = normalize parse_integer mixed_frame.
Proof. exact (normalize_idempotent parse_integer mixed_frame parse_integer_numeric). Defined.

(** ** What the row functions read *)

Lemma is_operational_cols_ext cols (r r' : row) :
  (∀ col, col ∈ cols → skipped col = false → get r col = get r' col) →
  is_operational_cols cols r = is_operational_cols cols r'.
Proof.
  induction cols as [|c cols IH]; intros Hsame; [reflexivity|].
  cbn [is_operational_cols].
  rewrite IH by (intros col Hcol; apply Hsame; by right).
  destruct (skipped c) eqn:Hc; [reflexivity|].
  by rewrite (Hsame c) by (done || by left).
Qed.

(** X6.  The class of a row depends on nothing but its cells in the
    qualifying columns: Flock, Date, the optional operational columns, the
    care columns and any column outside the catalogue never make a row
    operational or keep it from being so. *)
Theorem is_operational_row_reads_qualifying_cols (r r' : row) :
  (∀ col, col ∈ QUALIFYING_COLS → get r col = get r' col) →
  is_operational_row r = is_operational_row r'.
Proof.
  intros Hsame. apply is_operational_cols_ext. intros col Hcol Hskip.
  apply Hsame, elem_of_qualifying_cols. split; [done|].
  by apply skipped_false.
Qed.

Lemma is_operational_row_reads_qualifying_cols_witness :
  is_operational_row good_care_row
  = is_operational_row
      (<["Flock" := VNum 7]> (<["Animal Weight" := VNum 1800]> good_care_row)).
Proof.
  apply is_operational_row_reads_qualifying_cols.
  apply Forall_forall. apply (bool_decide_unpack _). vm_compute. exact I.
Defined.

(** ** The outcome of check_operational_row *)

Lemma operational_errors_nonempty_messages r msg :
  msg ∈ operational_errors r → msg ≠ "".
Proof.
  rewrite elem_of_operational_errors.
  intros [(col & _ & Hmsg)|(col & _ & Hmsg)].
  - apply elem_of_operational_finding in Hmsg as [[-> _]|[-> _]]; discriminate.
  - apply elem_of_missing_finding in Hmsg as [-> _]. discriminate.
Qed.

Lemma join_nonempty sep (parts : list string) :
  (∀ p, p ∈ parts → p ≠ "") → parts ≠ [] → Str.join sep parts ≠ "".
Proof.
  intros Hparts Hne. destruct parts as [|p rest]; [done|].
  assert (p ≠ "") as Hp by (apply Hparts; by left).
  cbn [Str.join]. destruct rest; [done|].
  destruct p; [done|]. discriminate.
Qed.

Lemma concat_nil_iff {A B} (f : A → list B) (l : list A) :
  concat (f <$> l) = [] ↔ ∀ x, x ∈ l → f x = [].
Proof.
  induction l as [|x l IH].
  - split; [|done]. intros _ x Hx. by apply elem_of_nil in Hx.
  - rewrite fmap_cons. cbn [concat]. split.
    + intros [Hx Hl]%app_eq_nil y [->|Hy]%elem_of_cons; [done|].
      by apply IH.
    + intros Hall. rewrite (Hall x) by (by left). cbn [app].
      apply IH. intros y Hy. apply Hall. by right.
Qed.

Lemma operational_finding_nil r col :
  operational_finding r col = [] ↔
  ¬ missing_or_empty (get r col) ∧ ¬ negative_number (get r col).
Proof.
  unfold operational_finding. rewrite <- blank_iff, <- negative_iff.
  destruct (blank (get r col)).
  - split; [done|]. by intros [? _].
  - destruct (is_int_or_float (get r col) && lt_zero (get r col)).
    + split; [done|]. by intros [_ ?].
    + by split.
Qed.

Lemma missing_finding_nil r col :
  missing_finding r col = [] ↔ ¬ missing_or_empty (get r col).
Proof.
  unfold missing_finding. rewrite <- blank_iff.
  by destruct (blank (get r col)).
Qed.

Lemma check_operational_row_not_empty_text r :
  check_operational_row r ≠ Some "".
Proof.
  unfold check_operational_row. rewrite join_errors_spec.
  destruct (decide (operational_errors r = [])) as [Hnil|Hnil]; [done|].
  intros [= Hjoin]. revert Hjoin. apply join_nonempty; [|done].
  intros msg. apply operational_errors_nonempty_messages.
Qed.

(** X7.  check_operational_row returns None exactly for a row in which no
    qualifying column is missing, blank or a negative number and neither
    Flock nor Date is missing or blank; when it returns a text, the text is
    never empty. *)
Theorem check_operational_row_None_iff_valid (r : row) :
  (check_operational_row r = None ↔
   (∀ col, col ∈ QUALIFYING_COLS →
      ¬ missing_or_empty (get r col) ∧ ¬ negative_number (get r col))
   ∧ ¬ missing_or_empty (get r "Flock")
   ∧ ¬ missing_or_empty (get r "Date"))
  ∧ check_operational_row r ≠ Some "".
Proof.
  split.
  - unfold check_operational_row. rewrite join_errors_spec.
    destruct (decide (operational_errors r = [])) as [Hnil|Hnil].
    + split; [intros _|done]. rewrite operational_errors_spec in Hnil.
      apply app_eq_nil in Hnil as [Hq Hkeys].
      rewrite concat_nil_iff in Hq. rewrite concat_nil_iff in Hkeys.
      split_and!.
      * intros col Hcol. by apply operational_finding_nil, Hq.
      * apply missing_finding_nil, Hkeys. by left.
      * apply missing_finding_nil, Hkeys. right. by left.
    + split; [done|]. intros (Hq & Hflock & Hdate). destruct Hnil.
      rewrite operational_errors_spec. apply app_nil. split.
      * apply concat_nil_iff. intros col Hcol.
        by apply operational_finding_nil, Hq.
      * apply concat_nil_iff. intros col Hcol.
        apply missing_finding_nil.
        apply elem_of_cons in Hcol as [->|Hcol]; [done|].
        apply list_elem_of_singleton in Hcol as ->. done.
  - apply check_operational_row_not_empty_text.
Qed.

(** ** The outcome of check_care_row *)

Lemma check_care_row_returns_iff r :
  (∃ out, check_care_row r = Ok out) ↔ ¬ has_NA_pair r.
Proof.
  unfold has_NA_pair. split.
  - intros [out Hout] Hna. by rewrite (check_care_row_NA r Hna) in Hout.
  - intros Hna. apply check_care_row_total; intros Heq; apply Hna; tauto.
Qed.

Lemma check_care_row_raises_iff r e :
  check_care_row r = Raise e ↔ e = TypeError ∧ has_NA_pair r.
Proof.
  split.
  - intros Hraise. split; [by eapply check_care_row_raises|].
    unfold has_NA_pair.
    destruct (decide (get r "Vaccination" = VNA)) as [|Hv]; [by left|].
    destruct (decide (get r "Medication" = VNA)) as [|Hm]; [by right|].
    destruct (check_care_row_total r Hv Hm) as [out Hout]. congruence.
  - intros [-> Hna]. by apply check_care_row_NA.
Qed.

(** X8.  check_care_row raises exactly when the Vaccination or the
    Medication cell is pd.NA, and then it raises TypeError; on every other
    row, whatever its cells, it returns an outcome. *)
Theorem check_care_row_raises_only_on_NA (r : row) :
  (∀ e, check_care_row r = Raise e ↔ e = TypeError ∧ has_NA_pair r)
  ∧ ((∃ out, check_care_row r = Ok out) ↔ ¬ has_NA_pair r).
Proof.
  split; [apply check_care_row_raises_iff|apply check_care_row_returns_iff].
Qed.

Lemma care_errors_Ok_inv r errors note :
  care_errors r = Ok (errors, note) →
  ∃ v m, or_empty (get r "Vaccination") = Ok v
         ∧ or_empty (get r "Medication") = Ok m
         ∧ errors = (three_way (Str.strip (str v)) (Str.strip (str m))).1
                    ++ concat (missing_finding r <$> OTHER_CARE_COLS)
         ∧ note = (three_way (Str.strip (str v)) (Str.strip (str m))).2.
Proof.
  intros Hok.
  destruct (or_empty (get r "Vaccination")) as [v|] eqn:Hv;
    [|by unfold care_errors in Hok; rewrite Hv in Hok].
  destruct (or_empty (get r "Medication")) as [m|] eqn:Hm;
    [|by unfold care_errors in Hok; rewrite Hv, Hm in Hok].
  rewrite (care_errors_spec r v m Hv Hm) in Hok.
  apply Ok_inj in Hok. injection Hok as <- <-. by exists v, m.
Qed.

Lemma three_way_cases vacc med :
  (vacc = "" ∧ med = ""
   ∧ three_way vacc med = (["Missing Vaccination and Medication"], ""))
  ∨ (vacc ≠ "" ∧ med = "" ∧ three_way vacc med = ([], NOTE_ONLY_VACC))
  ∨ (vacc = "" ∧ med ≠ "" ∧ three_way vacc med = ([], NOTE_ONLY_MED))
  ∨ (vacc ≠ "" ∧ med ≠ "" ∧ three_way vacc med = ([], "")).
Proof.
  unfold three_way.
  destruct (decide (vacc = "")) as [Hv|Hv], (decide (med = "")) as [Hm|Hm].
  - left. by rewrite decide_True.
  - right. right. left. rewrite decide_False by tauto.
    rewrite decide_False by tauto. by rewrite decide_True.
  - right. left. rewrite decide_False by tauto. by rewrite decide_True.
  - right. right. right. by rewrite !decide_False by tauto.
Qed.

(** X9.  When check_care_row returns, the note is the empty text or one of
    the two "Only ... recorded" notes; a note is set only when the error
    list has no "Missing Vaccination and Medication", and with that message
    the note is empty; every message of the list is a non-empty text. *)
Theorem care_note_excludes_pair_error (r : row) errors note :
  care_errors r = Ok (errors, note) →
  (note = "" ∨ note = NOTE_ONLY_VACC ∨ note = NOTE_ONLY_MED)
  ∧ ("Missing Vaccination and Medication" ∈ errors → note = "")
  ∧ (note ≠ "" → errors = concat (missing_finding r <$> OTHER_CARE_COLS))
  ∧ (∀ msg, msg ∈ errors → msg ≠ "").
Proof.
  intros (v & m & _ & _ & -> & ->)%care_errors_Ok_inv.
  assert (∀ msg, msg ∈ concat (missing_finding r <$> OTHER_CARE_COLS) →
                 msg ≠ "") as Hother.
  { intros msg (col & _ & [-> _]%elem_of_missing_finding)%elem_of_concat_fmap.
    discriminate. }
  destruct (three_way_cases (Str.strip (str v)) (Str.strip (str m)))
    as [(_ & _ & ->)|[(_ & _ & ->)|[(_ & _ & ->)|(_ & _ & ->)]]];
    cbn [fst snd app]; split_and!; try done; auto.
  - intros msg [->|Hmsg]%elem_of_cons; [discriminate|by apply Hother].
  - intros Hin. exfalso. revert Hin. apply care_message_not_missing_finding.
    apply (bool_decide_unpack _). vm_compute. exact I.
  - intros Hin. exfalso. revert Hin. apply care_message_not_missing_finding.
    apply (bool_decide_unpack _). vm_compute. exact I.
Qed.

Lemma care_note_excludes_pair_error_witness :
  ∃ errors,
    care_errors (<["Medication" := VStr "  "]> good_care_row)
    = Ok (errors, NOTE_ONLY_VACC)
    ∧ errors
      = concat (missing_finding (<["Medication" := VStr "  "]> good_care_row)
                  <$> OTHER_CARE_COLS).
Proof.
  eexists. split; [vm_compute; reflexivity|].
  refine (proj1 (proj2 (proj2 (care_note_excludes_pair_error
            (<["Medication" := VStr "  "]> good_care_row) _ NOTE_ONLY_VACC _))) _).
  - vm_compute. reflexivity.
  - discriminate.
Defined.

(** ** The outcome of analyze *)

Lemma mapM_Raise_inv {A B} (f : A → result B) xs e :
  mapM f xs = Raise e → ∃ x, x ∈ xs ∧ f x = Raise e.
Proof.
  induction xs as [|x xs IH]; [done|]. cbn [mapM].
  destruct (f x) as [y|e'] eqn:Hx; cbn [bind].
  - destruct (mapM f xs) as [ys|e'] eqn:Hxs; cbn [bind]; [done|].
    intros [= ->]. destruct IH as (x' & Hin & Hx'); [done|].
    exists x'. split; [by right|done].
  - intros [= ->]. exists x. split; [by left|done].
Qed.

Lemma care_records_outcome (care_df : list row) :
  (care_records care_df = Raise TypeError ↔
   ∃ r, r ∈ care_df ∧ has_NA_pair r)
  ∧ (care_records care_df = Raise KeyError ↔ care_df = [])
  ∧ ((∃ recs, care_records care_df = Ok recs) ↔
     care_df ≠ [] ∧ ∀ r, r ∈ care_df → ¬ has_NA_pair r).
Proof.
  assert ((∃ r, r ∈ care_df ∧ has_NA_pair r) →
          care_records care_df = Raise TypeError) as Htype.
  { intros (r & Hr & Hna). unfold care_records.
    rewrite (mapM_raise check_care_row care_df r TypeError); [done..| |].
    - by apply check_care_row_NA.
    - apply check_care_row_raises. }
  assert (care_df = [] → care_records care_df = Raise KeyError) as Hkey
    by (by intros ->).
  assert (care_df ≠ [] ∧ (∀ r, r ∈ care_df → ¬ has_NA_pair r) →
          ∃ recs, care_records care_df = Ok recs) as Hok.
  { intros [Hne Hclean]. apply care_records_returns; [done|].
    intros r Hr. specialize (Hclean r Hr). unfold has_NA_pair in Hclean.
    split; intros Heq; apply Hclean; tauto. }
  assert (∀ e, care_records care_df = Raise e →
               (e = TypeError ∧ ∃ r, r ∈ care_df ∧ has_NA_pair r)
               ∨ (e = KeyError ∧ care_df = [])) as Hraise.
  { intros e. unfold care_records.
    destruct (mapM check_care_row care_df) as [checked|e'] eqn:Hm; cbn [bind].
    - destruct care_df; [|done]. intros [= <-]. by right.
    - intros [= ->]. apply mapM_Raise_inv in Hm as (r & Hr & Hcheck).
      apply check_care_row_raises_iff in Hcheck as [-> Hna]. left. eauto. }
  assert (∀ recs, care_records care_df = Ok recs →
                  care_df ≠ [] ∧ ∀ r, r ∈ care_df → ¬ has_NA_pair r) as Hreturn.
  { intros recs Hrecs. split.
    - intros Hnil. by rewrite (Hkey Hnil) in Hrecs.
    - intros r Hr Hna. rewrite Htype in Hrecs by eauto. done. }
  split_and!.
  - split; [|done]. intros [[_ ?]|[[=] _]]%Hraise. done.
  - split; [|done]. intros [[[=] _]|[_ ?]]%Hraise. done.
  - split; [|done]. intros [recs Hrecs]. by eapply Hreturn.
Qed.

(** X10.  On a normalised frame the engine has three outcomes: TypeError
    exactly when some care row holds pd.NA in Vaccination or Medication,
    KeyError exactly when no row is a care row (an empty frame included), and
    a response exactly when there is a care row and no care row holds pd.NA
    in those two cells. *)
Theorem analyze_normalized_outcome (df : list row) :
  (analyze_normalized df = Raise TypeError ↔
   ∃ r, r ∈ df ∧ is_care_row r ∧ has_NA_pair r)
  ∧ (analyze_normalized df = Raise KeyError ↔ ∀ r, r ∈ df → ¬ is_care_row r)
  ∧ ((∃ resp, analyze_normalized df = Ok resp) ↔
     (∃ r, r ∈ df ∧ is_care_row r)
     ∧ ∀ r, r ∈ df → is_care_row r → ¬ has_NA_pair r).
Proof.
  set (care_df := filter (λ r, is_operational_row r ≠ true) df).
  destruct (care_records_outcome care_df) as (Htype & Hkey & Hok).
  assert (∀ e, analyze_normalized df = Raise e ↔ care_records care_df = Raise e)
    as Hraise.
  { intros e. unfold analyze_normalized. fold care_df.
    destruct (care_records care_df); cbn [bind].
    - split; intros Heq; discriminate Heq.
    - split; intros [= ->]; reflexivity. }
  assert ((∃ resp, analyze_normalized df = Ok resp) ↔
          ∃ recs, care_records care_df = Ok recs) as Hreturn.
  { unfold analyze_normalized. fold care_df.
    destruct (care_records care_df); cbn [bind].
    - split; eauto.
    - split; intros [? Heq]; discriminate Heq. }
  assert (care_df = [] ↔ ∀ r, r ∈ df → ¬ is_care_row r) as Hnil.
  { split.
    - intros Hnil r Hr Hcare.
      assert (r ∈ care_df) as Hin by (by apply list_elem_of_filter).
      rewrite Hnil in Hin. by apply elem_of_nil in Hin.
    - intros Hnone. destruct care_df as [|r rest] eqn:Hcare_df; [done|].
      assert (r ∈ care_df) as [Hcare Hr]%list_elem_of_filter
        by (rewrite Hcare_df; by left).
      by destruct (Hnone r Hr). }
  split_and!.
  - rewrite Hraise, Htype. unfold care_df.
    setoid_rewrite list_elem_of_filter. unfold is_care_row.
    split; intros (r & Hr); exists r; tauto.
  - by rewrite Hraise, Hkey.
  - rewrite Hreturn, Hok. unfold care_df at 2.
    setoid_rewrite list_elem_of_filter. split.
    + intros [Hne Hclean]. split.
      * destruct care_df as [|r rest] eqn:Hcare_df; [done|].
        assert (r ∈ care_df) as [Hcare Hr]%list_elem_of_filter
          by (rewrite Hcare_df; by left).
        by exists r.
      * intros r Hr Hcare. by apply Hclean.
    + intros [(r & Hr & Hcare) Hclean]. split.
      * intros Hempty. by apply (proj1 Hnil Hempty r Hr).
      * intros r' [Hcare' Hr']. by apply Hclean.
Qed.

Lemma analyze_normalized_outcome_witness :
  analyze_normalized [good_operational_row] = Raise KeyError.
Proof.
  apply (proj1 (proj2 (analyze_normalized_outcome [good_operational_row]))).
  apply Forall_forall. apply (bool_decide_unpack _). vm_compute. exact I.
Defined.

(** ** The fields of the returned records *)

Lemma dom_normalize_row parse (r : row) :
  dom (normalize_row parse r) = dom r ∪ list_to_set CATALOGUE.
Proof.
  rewrite <- dom_add_missing_columns. apply set_eq. intros col.
  rewrite !elem_of_dom, normalize_row_lookup.
  destruct (decide (col ∈ NUMERIC_COLS)); [|done]. apply fmap_is_Some.
Qed.

Lemma dom_annotated_operational (r : row) dup :
  dom (annotated_operational r dup)
  = dom r ∪ list_to_set OPERATIONAL_ADDED_COLS.
Proof.
  unfold annotated_operational, clean_nan_inf, to_record.
  rewrite dom_fmap_L, !dom_insert_L, dom_fmap_L.
  apply set_eq. intros col.
  rewrite !elem_of_union, elem_of_list_to_set, !elem_of_singleton.
  unfold OPERATIONAL_ADDED_COLS. rewrite !elem_of_cons, elem_of_nil. tauto.
Qed.

Lemma dom_annotated_care (r : row) dup e note :
  dom (annotated_care r dup e note) = dom r ∪ list_to_set CARE_ADDED_COLS.
Proof.
  unfold annotated_care, clean_nan_inf, to_record.
  rewrite dom_fmap_L, !dom_insert_L, dom_fmap_L.
  apply set_eq. intros col.
  rewrite !elem_of_union, elem_of_list_to_set, !elem_of_singleton.
  unfold CARE_ADDED_COLS. rewrite !elem_of_cons, elem_of_nil. tauto.
Qed.

(** X11.  The fields of a returned record are the columns of the uploaded
    row it comes from, every catalogue column, and the columns analyze adds:
    Duplicate Error, Error Details and has_error, and for a care record also
    care_key and note. *)
Theorem returned_record_fields parse (df : list row) resp :
  analyze parse df = Ok resp →
  (∀ rec, rec ∈ operational_data resp →
     ∃ r, r ∈ df
          ∧ dom rec = dom r ∪ list_to_set CATALOGUE
                      ∪ list_to_set OPERATIONAL_ADDED_COLS)
  ∧ (∀ rec, rec ∈ care_data resp →
       ∃ r, r ∈ df
            ∧ dom rec = dom r ∪ list_to_set CATALOGUE
                        ∪ list_to_set CARE_ADDED_COLS).
Proof.
  intros (Hop & Hcare)%analyze_normalized_Ok.
  assert (∀ (P : row → Prop) `{∀ r, Decision (P r)} i nr,
            filter P (normalize parse df) !! i = Some nr →
            ∃ r, r ∈ df ∧ nr = normalize_row parse r) as Hsource.
  { intros P HP i nr Hnr.
    assert (nr ∈ filter P (normalize parse df)) as [_ Hin]%list_elem_of_filter
      by (apply list_elem_of_lookup; eauto).
    apply list_elem_of_fmap in Hin as (r & -> & Hr). by exists r. }
  split.
  - intros rec Hrec. rewrite Hop in Hrec.
    apply operational_records_elem in Hrec as (i & nr & dup & Hnr & _ & ->).
    apply Hsource in Hnr as (r & Hr & ->). exists r. split; [done|].
    by rewrite dom_annotated_operational, dom_normalize_row.
  - intros rec Hrec.
    apply (care_records_elem _ _ _ Hcare) in Hrec
      as (i & nr & dup & e & note & Hnr & _ & _ & ->).
    apply Hsource in Hnr as (r & Hr & ->). exists r. split; [done|].
    by rewrite dom_annotated_care, dom_normalize_row.
Qed.

Lemma returned_record_fields_witness :
  ∃ resp,
    analyze parse_integer mixed_frame = Ok resp
    ∧ ∀ rec, rec ∈ care_data resp →
        ∃ r, r ∈ mixed_frame
             ∧ dom rec = dom r ∪ list_to_set CATALOGUE
                         ∪ list_to_set CARE_ADDED_COLS.
Proof.
  destruct mixed_frame_analysed as [resp Hrun].
  exists resp. split; [exact Hrun|].
  exact (proj2 (returned_record_fields parse_integer mixed_frame resp Hrun)).
Defined.

(** ** Rows that are not duplicates *)

Lemma has_text_check_operational_row r :
  has_text (check_operational_row r)
  = bool_decide (check_operational_row r ≠ None).
Proof.
  pose proof (check_operational_row_not_empty_text r) as Hne.
  destruct (check_operational_row r) as [s|]; unfold has_text.
  - rewrite (bool_decide_eq_false_2 (s = "")) by congruence.
    by rewrite (bool_decide_eq_true_2 (Some s ≠ None)).
  - symmetry. apply bool_decide_eq_false_2. by intros Hn.
Qed.

(** X12.  For an operational row whose (Flock, Date) pair no other row of
    the table shares, Duplicate Error is false, Error Details is the outcome
    of check_operational_row unchanged (None for a valid row), and has_error
    is true exactly when that outcome is not None. *)
Theorem unshared_row_record (df : list row) i (r : row) :
  df !! i = Some r →
  (∀ j r', j ≠ i → df !! j = Some r' → ¬ same_flock_date r' r) →
  ∃ rec, operational_records df !! i = Some rec
         ∧ rec !! "Duplicate Error" = Some (CBool false)
         ∧ rec !! "Error Details" = Some (error_cell (check_operational_row r))
         ∧ rec !! "has_error"
           = Some (CBool (bool_decide (check_operational_row r ≠ None))).
Proof.
  intros Hi Hunshared.
  destruct (operational_records_lookup df i r Hi) as (dup & Hdup & Hrec).
  destruct (duplicate_flag_spec operational_key df i r Hi)
    as (dup' & Hdup' & Hiff & _).
  assert (dup' = dup) as -> by congruence.
  assert (dup = false) as ->.
  { destruct dup; [|done]. destruct Hiff as [Hother _].
    destruct (Hother eq_refl) as (j & r' & Hne & Hj & Hkey).
    destruct (Hunshared j r' Hne Hj). by apply operational_key_eq_iff. }
  destruct (annotated_operational_fields r false) as (Hd & He & Hh).
  exists (annotated_operational r false).
  split; [exact Hrec|]. split; [exact Hd|]. split; [exact He|].
  rewrite Hh. cbn zeta. by rewrite has_text_check_operational_row.
Qed.

Lemma unshared_row_record_witness :
  ∃ rec,
    operational_records [negative_feed_row] !! 0 = Some rec
    ∧ rec !! "Duplicate Error" = Some (CBool false).
Proof.
  destruct (unshared_row_record [negative_feed_row] 0 negative_feed_row eq_refl)
    as (rec & Hrec & Hdup & _).
  - intros [|j] r' Hne Hj; [done|discriminate Hj].
  - exists rec. split; [exact Hrec|exact Hdup].
Defined.

(** ** Flags come in groups *)

(** X13.  duplicated(keep=False), guarded by the test on an empty frame,
    gives one flag per row; a flagged row is never alone: another row with
    the same key is flagged too; and when all keys are distinct no row is
    flagged. *)
Theorem duplicate_flags_come_in_groups {K} `{EqDecision K} (keys : list K) :
  length (duplicate_error keys) = length keys
  ∧ (∀ i, duplicate_error keys !! i = Some true →
          ∃ j, j ≠ i ∧ duplicate_error keys !! j = Some true
               ∧ keys !! j = keys !! i)
  ∧ (NoDup keys → Forall (λ flag, flag = false) (duplicate_error keys)).
Proof.
  split; [apply length_duplicate_error|]. split.
  - intros i Hflag.
    destruct (lookup_lt_is_Some_2 keys i) as [k Hk].
    { rewrite <- length_duplicate_error. by eapply lookup_lt_Some. }
    destruct (duplicate_error_lookup keys i k Hk) as (b & Hb & Hiff).
    assert (b = true) as -> by congruence.
    destruct (proj1 Hiff eq_refl) as (j & Hne & Hj).
    destruct (duplicate_error_lookup keys j k Hj) as (b' & Hb' & Hiff').
    exists j. split; [done|]. split; [|congruence].
    rewrite Hb'. f_equal. apply Hiff'. exists i. split; [done|exact Hk].
  - intros Hnd. apply Forall_forall. intros flag Hin.
    apply list_elem_of_lookup in Hin as [i Hi].
    destruct flag; [|done]. exfalso.
    destruct (lookup_lt_is_Some_2 keys i) as [k Hk].
    { rewrite <- length_duplicate_error. by eapply lookup_lt_Some. }
    destruct (duplicate_error_lookup keys i k Hk) as (b & Hb & Hiff).
    assert (b = true) as -> by congruence.
    destruct (proj1 Hiff eq_refl) as (j & Hne & Hj).
    apply Hne. by eapply NoDup_lookup.
Qed.

Lemma duplicate_flags_come_in_groups_witness :
  Forall (λ flag, flag = false)
    (duplicate_error (operational_key <$> [good_operational_row; good_care_row])).
Proof.
  apply duplicate_flags_come_in_groups.
  apply (bool_decide_unpack _). vm_compute. exact I.
Defined.

(** ** The name of the upload *)

Lemma endswith_iff name suffix :
  endswith name suffix = true ↔ ∃ stem, name = stem +:+ suffix.
Proof.
  induction name as [|c rest IH]; cbn [endswith];
    rewrite orb_true_iff, bool_decide_eq_true.
  - split.
    + intros [<-|?]; [|done]. by exists "".
    + intros [[|c stem] Hstem]; [by left|discriminate Hstem].
  - rewrite IH. split.
    + intros [<-|[stem ->]]; [by exists ""|]. by exists (String c stem).
    + intros [[|c' stem] Hstem]; [by left|].
      injection Hstem as -> ->. right. by exists stem.
Qed.

Lemma length_string_app (stem suffix : string) :
  String.length (stem +:+ suffix)
  = String.length stem + String.length suffix.
Proof.
  induction stem as [|c stem IH]; [reflexivity|].
  change (S (String.length (stem +:+ suffix))
          = S (String.length stem + String.length suffix)).
  by rewrite IH.
Qed.

(** X14.  analyze lets a file name through exactly when the name is some
    stem, possibly empty, followed by ".xls" or by ".xlsx"; such a name has at
    least four characters. *)
Theorem allowed_filename_iff_excel_suffix (filename : string) :
  (allowed_filename filename = true ↔
   ∃ stem, filename = stem +:+ ".xls" ∨ filename = stem +:+ ".xlsx")
  ∧ (allowed_filename filename = true → 4 ≤ String.length filename).
Proof.
  assert (allowed_filename filename = true ↔
          ∃ stem, filename = stem +:+ ".xls" ∨ filename = stem +:+ ".xlsx")
    as Hiff.
  { unfold allowed_filename. rewrite orb_true_iff, !endswith_iff. split.
    - intros [[stem ->]|[stem ->]]; exists stem; [by left|by right].
    - intros [stem [Heq|Heq]]; subst filename; [left|right]; by exists stem. }
  split; [exact Hiff|]. intros [stem Hstem]%Hiff.
  destruct Hstem as [Heq|Heq]; rewrite Heq, length_string_app; cbn; lia.
Qed.
